(** * SEAquence / Talkativ AI: Korean speech-formality analysis

  A shallow embedding of the politeness engine of the repository:
  - [app/core/constants.py]         (role levels, ending patterns, honorific words)
  - [app/core/corrections.py]       (conversion tables, error taxonomy)
  - [app/services/politeness_service.py]           (sentence-level service)
  - [app/services/enhanced_politeness_service.py]  (word-level service)

  Python [str] values are sequences of Unicode code points and are modelled
  as [list N]; literals are written as UTF-8 text and decoded once.
  Python [dict]s that are only read through [.get] are [gmap]s; dicts whose
  iteration order is observable are association lists in insertion order.
  The Unicode tables behind [str.lower], [\w] and [\s] are parameters of
  the services; the worked inputs use their restriction to ASCII and the
  Hangul syllables.  The feedback strings and the localized level names are
  presentation and are left out of the result records. *)

From Stdlib Require Import ZArith NArith List String Ascii Bool Lia Sorting.Sorted.
From Stdlib Require Import DecimalString.
From stdpp Require Import base option list gmap.

Open Scope Z_scope.

(** ** Python strings as code-point sequences *)

Abbreviation pystr := (list N).

Module Unicode.

(** UTF-8 decoding of a source literal into code points. *)
Fixpoint utf8_go (bs : list N) (acc : N) (need : nat) : pystr :=
  match bs with
  | [] => []
  | b :: r =>
      match need with
      | O =>
          if (b <? 128)%N then b :: utf8_go r 0%N O
          else if (b <? 224)%N then utf8_go r (b - 192)%N 1%nat
          else if (b <? 240)%N then utf8_go r (b - 224)%N 2%nat
          else utf8_go r (b - 240)%N 3%nat
      | S O => (acc * 64 + (b - 128))%N :: utf8_go r 0%N O
      | S n => utf8_go r (acc * 64 + (b - 128))%N n
      end
  end.

Definition str (s : string) : pystr :=
  utf8_go (map N_of_ascii (list_ascii_of_string s)) 0%N O.

(** [sub in text]: substring test. *)
Fixpoint starts_with (sub text : pystr) : bool :=
  match sub, text with
  | [], _ => true
  | _ :: _, [] => false
  | a :: sub', b :: text' => (a =? b)%N && starts_with sub' text'
  end.

Fixpoint contains (sub text : pystr) : bool :=
  starts_with sub text ||
  match text with
  | [] => false
  | _ :: text' => contains sub text'
  end.

(** [text.find(sub, start)]: lowest index [>= start] at which [sub] occurs,
    [-1] when there is none.  A negative [start] counts from the end. *)
Fixpoint find_from (sub text : pystr) (idx : Z) : Z :=
  if starts_with sub text then idx
  else match text with
       | [] => -1
       | _ :: text' => find_from sub text' (idx + 1)
       end.

Definition find (text sub : pystr) (start : Z) : Z :=
  let len := Z.of_nat (length text) in
  let start' := if start <? 0 then Z.max 0 (len + start) else start in
  if len <? start' then -1
  else find_from sub (drop (Z.to_nat start') text) start'.

(** The Hangul syllables block, the range [가-힣] of the tokenizer. *)
Definition is_hangul_syllable (c : N) : bool :=
  (44032 <=? c)%N && (c <=? 55203)%N.

(** Python's [str.isspace] / regex [\s]: the Unicode white-space code points. *)
Definition py_isspace (c : N) : bool :=
  ((9 <=? c) && (c <=? 13) || (28 <=? c) && (c <=? 32) ||
   (c =? 133) || (c =? 160) || (c =? 5760) ||
   (8192 <=? c) && (c <=? 8202) || (c =? 8232) || (c =? 8233) ||
   (c =? 8239) || (c =? 8287) || (c =? 12288))%N.

(** Regex [\w] on the blocks that occur in the worked examples: ASCII
    letters, digits, underscore and Hangul syllables.  The general theorems
    below are stated for an arbitrary word-character class. *)
Definition basic_isword (c : N) : bool :=
  ((48 <=? c) && (c <=? 57) || (65 <=? c) && (c <=? 90) || (c =? 95) ||
   (97 <=? c) && (c <=? 122))%N || is_hangul_syllable c.

(** [str.lower] on ASCII; other code points are left unchanged. *)
Definition ascii_lower (s : pystr) : pystr :=
  map (fun c => if ((65 <=? c) && (c <=? 90))%N then (c + 32)%N else c) s.

(** [s.strip()] for a white-space class [sp]. *)
Fixpoint lstrip (sp : N -> bool) (s : pystr) : pystr :=
  match s with
  | [] => []
  | c :: s' => if sp c then lstrip sp s' else s
  end.

Definition strip (sp : N -> bool) (s : pystr) : pystr :=
  rev (lstrip sp (rev (lstrip sp s))).

End Unicode.
Import Unicode.

(** ** Formality levels

  The services pass levels around as the strings ["informal"], ["polite"],
  ["very_polite"], ["neutral"], ["honorific"] and ["mixed"]. *)

Inductive Level : Type :=
| informal | polite | very_polite | neutral | honorific | mixed.

#[global] Instance Level_eq_dec : EqDecision Level.
Proof. solve_decision. Defined.

(** ** app/core/constants.py *)

Module Constants.

Definition ROLE_LEVELS : gmap pystr Z :=
  list_to_map
    [ (str "junior", 0); (str "student", 0); (str "friend", 1);
      (str "peer", 1); (str "senior", 2); (str "professor", 3);
      (str "boss", 3) ].

Definition ENDING_PATTERNS : list (Level * list pystr) :=
  [ (very_polite,
      [ str "습니다[.?!]?$"; str "습니까[.?!]?$"; str "십니다[.?!]?$";
        str "십시오[.?!]?$"; str "옵니다[.?!]?$" ]);
    (polite,
      [ str "[아어]요[.?!]?$"; str "세요[.?!]?$"; str "죠[.?!]?$";
        str "네요[.?!]?$"; str "군요[.?!]?$"; str "거든요[.?!]?$" ]);
    (informal,
      [ str "[아어][.?!]?$"; str "지[.?!]?$"; str "냐[.?!]?$";
        str "니[.?!]?$"; str "야[.?!]?$"; str "래[.?!]?$" ]) ].

Definition HONORIFIC_WORDS : list (pystr * Z) :=
  [ (str "드리다", 10); (str "여쭙다", 10); (str "여쭤", 10); (str "말씀", 10);
    (str "뵙다", 10); (str "뵈다", 10); (str "계시다", 10); (str "주무시다", 10);
    (str "혹시", 5); (str "실례", 5); (str "죄송", 5); (str "감사", 5) ].

End Constants.
Import Constants.

(** ** app/core/corrections.py *)

Module Corrections.

(** Informal -> Polite *)
Definition INFORMAL_TO_POLITE_items : list (pystr * pystr) :=
  [ (str "해", str "해요"); (str "가", str "가요"); (str "와", str "와요");
    (str "봐", str "봐요"); (str "자", str "자요"); (str "먹어", str "먹어요");
    (str "마셔", str "마셔요"); (str "있어", str "있어요");
    (str "없어", str "없어요"); (str "알아", str "알아요");
    (str "몰라", str "몰라요"); (str "좋아", str "좋아요");
    (str "싫어", str "싫어요"); (str "했어", str "했어요");
    (str "갔어", str "갔어요"); (str "왔어", str "왔어요");
    (str "봤어", str "봤어요"); (str "먹었어", str "먹었어요");
    (str "마셨어", str "마셨어요");
    (str "뭐해", str "뭐 해요"); (str "어디가", str "어디 가요");
    (str "왜", str "왜요"); (str "뭐야", str "뭐예요");
    (str "누구야", str "누구예요");
    (str "해줘", str "해 주세요"); (str "가줘", str "가 주세요");
    (str "와줘", str "와 주세요"); (str "도와줘", str "도와주세요") ].

(** Polite -> Formal *)
Definition POLITE_TO_FORMAL_items : list (pystr * pystr) :=
  [ (str "해요", str "합니다"); (str "가요", str "갑니다");
    (str "와요", str "옵니다"); (str "봐요", str "봅니다");
    (str "먹어요", str "먹습니다"); (str "마셔요", str "마십니다");
    (str "있어요", str "있습니다"); (str "없어요", str "없습니다");
    (str "알아요", str "압니다"); (str "몰라요", str "모릅니다");
    (str "좋아요", str "좋습니다"); (str "싫어요", str "싫습니다");
    (str "했어요", str "했습니다"); (str "갔어요", str "갔습니다");
    (str "왔어요", str "왔습니다"); (str "봤어요", str "봤습니다");
    (str "먹었어요", str "먹었습니다"); (str "마셨어요", str "마셨습니다");
    (str "뭐 해요", str "무엇을 하십니까");
    (str "어디 가요", str "어디 가십니까");
    (str "뭐예요", str "무엇입니까");
    (str "있어요?", str "있습니까?"); (str "없어요?", str "없습니까?");
    (str "해 주세요", str "해 주십시오"); (str "가 주세요", str "가 주십시오");
    (str "도와주세요", str "도와주십시오");
    (str "알려주세요", str "알려주십시오") ].

(** Informal -> Formal (direct) *)
Definition INFORMAL_TO_FORMAL_items : list (pystr * pystr) :=
  [ (str "해", str "합니다"); (str "가", str "갑니다"); (str "와", str "옵니다");
    (str "먹어", str "먹습니다"); (str "마셔", str "마십니다");
    (str "있어", str "있습니다"); (str "없어", str "없습니다");
    (str "알아", str "압니다"); (str "몰라", str "모릅니다");
    (str "했어", str "했습니다"); (str "갔어", str "갔습니다");
    (str "왔어", str "왔습니다"); (str "뭐해", str "무엇을 하십니까");
    (str "해줘", str "해 주십시오") ].

Definition INFORMAL_TO_POLITE : gmap pystr pystr :=
  list_to_map INFORMAL_TO_POLITE_items.
Definition POLITE_TO_FORMAL : gmap pystr pystr :=
  list_to_map POLITE_TO_FORMAL_items.
Definition INFORMAL_TO_FORMAL : gmap pystr pystr :=
  list_to_map INFORMAL_TO_FORMAL_items.

(** One entry of the error taxonomy (the fields the engine reads). *)
Record ErrorInfo : Type := mkErrorInfo {
  name_ko : pystr;
  name_en : pystr;
  description : pystr;
  severity : pystr
}.

Definition ERROR_CATEGORIES_items : list (pystr * ErrorInfo) :=
    [ (str "ending_mismatch",
        mkErrorInfo (str "어미 불일치") (str "Ending Mismatch")
          (str "Sentence ending doesn't match expected formality level")
          (str "high"));
      (str "honorific_missing",
        mkErrorInfo (str "높임 표현 누락") (str "Missing Honorific")
          (str "Missing honorific marker (-시-) or honorific verb")
          (str "high"));
      (str "formality_mixed",
        mkErrorInfo (str "격식 혼용") (str "Mixed Formality")
          (str "Mixing different formality levels in same sentence")
          (str "medium"));
      (str "word_choice",
        mkErrorInfo (str "단어 선택") (str "Word Choice")
          (str "Using casual word when formal word is expected")
          (str "low"));
      (str "subject_marker",
        mkErrorInfo (str "주격 조사") (str "Subject Marker")
          (str "Using wrong subject marker for politeness")
          (str "low"));
      (str "tone_inappropriate",
        mkErrorInfo (str "어조 부적절") (str "Inappropriate Tone")
          (str "Overall tone doesn't match the situation")
          (str "medium")) ].

Definition ERROR_CATEGORIES : gmap pystr ErrorInfo :=
  list_to_map ERROR_CATEGORIES_items.

(** Regular verb -> honorific verb *)
Definition HONORIFIC_VERBS_items : list (pystr * pystr) :=
  [ (str "먹다", str "드시다/잡수시다"); (str "먹어요", str "드세요");
    (str "먹습니다", str "드십니다"); (str "마시다", str "드시다");
    (str "마셔요", str "드세요"); (str "자다", str "주무시다");
    (str "자요", str "주무세요"); (str "있다", str "계시다");
    (str "있어요", str "계세요"); (str "있습니다", str "계십니다");
    (str "말하다", str "말씀하시다"); (str "말해요", str "말씀하세요");
    (str "주다", str "드리다"); (str "줘요", str "드려요");
    (str "줍니다", str "드립니다"); (str "보다", str "뵙다");
    (str "봐요", str "뵈요"); (str "봅니다", str "뵙습니다");
    (str "묻다", str "여쭙다"); (str "물어요", str "여쭤요");
    (str "물어봐요", str "여쭤봐요"); (str "죽다", str "돌아가시다");
    (str "아프다", str "편찮으시다") ].

Definition HONORIFIC_VERBS : gmap pystr pystr :=
  list_to_map HONORIFIC_VERBS_items.

(** Casual word -> its "polite" and "formal" forms; the inner dicts are
    keyed by the strings "polite" and "formal". *)
Definition word_forms (p f : string) : gmap pystr pystr :=
  list_to_map [ (str "polite", str p); (str "formal", str f) ].

Definition WORD_FORMALITY_items : list (pystr * gmap pystr pystr) :=
  [ (str "밥", word_forms "식사" "진지");
    (str "나이", word_forms "연세" "연세");
    (str "집", word_forms "댁" "댁");
    (str "말", word_forms "말씀" "말씀");
    (str "이름", word_forms "성함" "성함");
    (str "사람", word_forms "분" "분");
    (str "아빠", word_forms "아버지" "아버님");
    (str "엄마", word_forms "어머니" "어머님");
    (str "나", word_forms "저" "저");
    (str "우리", word_forms "저희" "저희") ].

Definition WORD_FORMALITY : gmap pystr (gmap pystr pystr) :=
  list_to_map WORD_FORMALITY_items.

(** The helper functions of the module.  [get_correction] takes the level
    names of the services; [get_formal_word] takes a key of the inner dicts
    of [WORD_FORMALITY], a plain string. *)
Definition get_correction (word : pystr) (from_level to_level : Level)
    : option pystr :=
  match from_level, to_level with
  | informal, polite => INFORMAL_TO_POLITE !! word
  | polite, very_polite => POLITE_TO_FORMAL !! word
  | informal, very_polite => INFORMAL_TO_FORMAL !! word
  | _, _ => None
  end.

Definition get_honorific_form (word : pystr) : option pystr :=
  HONORIFIC_VERBS !! word.

Definition get_formal_word (word level : pystr) : option pystr :=
  match WORD_FORMALITY !! word with
  | Some forms => forms !! level
  | None => None
  end.

(** [ERROR_CATEGORIES.get(error_type, {})]: [None] stands for the empty
    dict. *)
Definition get_error_info (error_type : pystr) : option ErrorInfo :=
  ERROR_CATEGORIES !! error_type.

End Corrections.
Import Corrections.

(** ** The fragment of Python's [re] used by the ending patterns

  The patterns use literal characters, bracket classes, [?] applied to a
  single character or class, and the end anchor [$]. *)

Module Re.

Inductive item : Type :=
  | Chr (cs : list N)      (* one character out of [cs] *)
  | Opt (cs : list N)      (* the same, optional *)
  | Eol.                   (* [$] *)

Abbreviation regex := (list item).

(** [re.compile]: [cls] holds the members of an open bracket class. *)
Fixpoint compile_go (p : pystr) (cls : option (list N)) (acc : regex) : regex :=
  match p with
  | [] => rev acc
  | c :: r =>
      match cls with
      | Some cs =>
          if (c =? 93)%N then compile_go r None (Chr (rev cs) :: acc)
          else compile_go r (Some (c :: cs)) acc
      | None =>
          if (c =? 91)%N then compile_go r (Some []) acc
          else if (c =? 63)%N then
            compile_go r None
              (match acc with Chr cs :: a => Opt cs :: a | _ => acc end)
          else if (c =? 36)%N then compile_go r None (Eol :: acc)
          else compile_go r None (Chr [c] :: acc)
      end
  end.

(** A compiled pattern remembers its source text ([pattern.pattern]). *)
Record Pattern : Type := mkPattern { pattern : pystr; prog : regex }.

Definition compile (p : pystr) : Pattern := mkPattern p (compile_go p None []).

Definition in_class (c : N) (cs : list N) : bool := existsb (N.eqb c) cs.

(** [$] matches at the end of the string and just before a final newline. *)
Definition at_end (s : pystr) : bool :=
  match s with
  | [] => true
  | [c] => (c =? 10)%N
  | _ => false
  end.

Fixpoint match_here (re : regex) (s : pystr) : bool :=
  match re with
  | [] => true
  | Chr cs :: re' =>
      match s with
      | c :: s' => in_class c cs && match_here re' s'
      | [] => false
      end
  | Opt cs :: re' =>
      match s with
      | c :: s' => in_class c cs && match_here re' s'
      | [] => false
      end || match_here re' s
  | Eol :: re' => at_end s && match_here re' s
  end.

Fixpoint search_prog (re : regex) (s : pystr) : bool :=
  match_here re s ||
  match s with
  | [] => false
  | _ :: s' => search_prog re s'
  end.

(** [pattern.search(s)] as a truth value. *)
Definition search (p : Pattern) (s : pystr) : bool := search_prog (prog p) s.

End Re.

Import Re.

(** ** Python floats as they occur in the services

    The only floats are quotients [count / total] of two ints with
    [0 <= count <= total], their two-decimal roundings, and the literals
    they are compared with.  A quotient is the IEEE double nearest to the
    exact value, kept here as [mant / 2 ^ expo] with a 53-bit mantissa.
    [round(x, 2)] is the double nearest to [k / 100], where [k] is the exact
    value of [100 * x] rounded to the nearest integer, ties to even; it is
    represented by [k] itself (a number of hundredths).  Distinct [k] give
    distinct doubles in the same order, and the literals [0.2], [0.5] and
    [0.8] are the doubles of 20, 50 and 80 hundredths, so comparisons between
    rounded values and these literals are comparisons of hundredths. *)

Module PyFloat.

Record float : Type := mkFloat { mant : Z; expo : Z }.

(** Nearest integer to [n / d], ties to even ([0 <= n], [0 < d]). *)
Definition rne_div (n d : Z) : Z :=
  let q := n / d in
  let r := n mod d in
  if (d <? 2 * r) || ((2 * r =? d) && Z.odd q) then q + 1 else q.

(** [c / t] (true division of ints) for [0 <= c <= t], [0 < t]. *)
Definition div (c t : Z) : float :=
  if c =? 0 then mkFloat 0 0
  else
    let e0 := 52 + Z.log2 t - Z.log2 c in
    let e := if (c * 2 ^ e0) / t <? 2 ^ 52 then e0 + 1 else e0 in
    mkFloat (rne_div (c * 2 ^ e) t) e.

(** [round(x, 2)], in hundredths. *)
Definition round2 (x : float) : Z := rne_div (100 * mant x) (2 ^ expo x).

(** [x >= y] *)
Definition geb (x y : float) : bool :=
  mant y * 2 ^ expo x <=? mant x * 2 ^ expo y.

(** The literal [0.8]. *)
Definition lit_0_8 : float := div 4 5.

End PyFloat.

(** ** app/services/politeness_service.py: the sentence-level service *)

Module PolitenessService.

(** [level_counts]: the dict with keys very_polite, polite, informal. *)
Record LevelCounts : Type := mkCounts {
  n_very_polite : Z;
  n_polite : Z;
  n_informal : Z
}.

Definition get_count (c : LevelCounts) (l : Level) : Z :=
  match l with
  | very_polite => n_very_polite c
  | polite => n_polite c
  | informal => n_informal c
  | _ => 0
  end.

Definition incr_count (c : LevelCounts) (l : Level) : LevelCounts :=
  match l with
  | very_polite => mkCounts (n_very_polite c + 1) (n_polite c) (n_informal c)
  | polite => mkCounts (n_very_polite c) (n_polite c + 1) (n_informal c)
  | informal => mkCounts (n_very_polite c) (n_polite c) (n_informal c + 1)
  | _ => c
  end.

Record Result : Type := mkResult {
  level : Level;
  score : Z;
  is_appropriate : bool;
  recommended_level : option Level;
  level_counts : LevelCounts;
  endings_found : list pystr;
  honorifics_found : list pystr;
  honorific_score : Z
}.

Definition _compiled_patterns : list (Level * list Pattern) :=
  map (fun '(lvl, ps) => (lvl, map Re.compile ps)) ENDING_PATTERNS.

Definition patterns_of (lvl : Level) : list Pattern :=
  match list_find (fun e => bool_decide (fst e = lvl)) _compiled_patterns with
  | Some (_, (_, ps)) => ps
  | None => []
  end.

(** The separators of [re.split(r'[.?!。？！]\s*', text)]. *)
Definition is_sentence_end (c : N) : bool :=
  ((c =? 46) || (c =? 63) || (c =? 33) ||
   (c =? 12290) || (c =? 65311) || (c =? 65281))%N.

Definition _check_appropriateness (actual recommended : Level) : bool :=
  let level_order (l : Level) : option Z :=
    match l with
    | informal => Some 0 | polite => Some 1 | very_polite => Some 2
    | _ => None
    end in
  let actual_val := default 1 (level_order actual) in
  let recommended_val := default 1 (level_order recommended) in
  recommended_val <=? actual_val.

Definition _get_dominant_level (level_counts : LevelCounts)
    (honorific_score : Z) : Level :=
  if 15 <=? honorific_score then very_polite
  else if 0 <? n_very_polite level_counts then very_polite
  else if n_informal level_counts <? n_polite level_counts then polite
  else if 0 <? n_informal level_counts then informal
  else polite.

Definition _calculate_score (level : Level) (honorific_score : Z)
    (level_counts : LevelCounts) : Z :=
  let base :=
    match level with
    | informal => 20 | polite => 60 | very_polite => 85 | _ => 50
    end in
  let score := base + Z.min honorific_score 15 in
  let total :=
    n_very_polite level_counts + n_polite level_counts +
    n_informal level_counts in
  let score :=
    if 0 <? total then
      let dominant_ratio := PyFloat.div (get_count level_counts level) total in
      if PyFloat.geb dominant_ratio PyFloat.lit_0_8 then score + 5 else score
    else score in
  Z.min 100 (Z.max 0 score).

Section Service.

(** [str.lower] and the white-space class of [\s] and [str.strip]. *)
Variable lower : pystr -> pystr.
Variable isspace : N -> bool.

(** [cur] is the piece being read, reversed; [skipping] is set while the
    white space after a separator is consumed. *)
Fixpoint split_go (text cur : pystr) (skipping : bool) : list pystr :=
  match text with
  | [] => [rev cur]
  | c :: r =>
      if skipping && isspace c then split_go r cur true
      else if is_sentence_end c then rev cur :: split_go r [] true
      else split_go r (c :: cur) false
  end.

Definition _split_sentences (text : pystr) : list pystr :=
  omap (fun s => let s' := strip isspace s in
                 if bool_decide (s' = []) then None else Some s')
       (split_go text [] false).

Definition first_match (lvl : Level) (sentence : pystr)
    : option (Level * pystr) :=
  match list_find (fun p => Re.search p sentence) (patterns_of lvl) with
  | Some (_, p) => Some (lvl, pattern p)
  | None => None
  end.

Definition _detect_sentence_level (sentence : pystr)
    : option Level * option pystr :=
  let sentence := strip isspace sentence in
  if bool_decide (sentence = []) then (None, None)
  else
    match
      list_find (fun m => bool_decide (is_Some m))
        (map (fun lvl => first_match lvl sentence)
             [very_polite; polite; informal])
    with
    | Some (_, Some (lvl, pat)) => (Some lvl, Some pat)
    | _ => (None, None)
    end.

Definition _get_recommended_level (target_role : pystr)
    (target_age : option Z) (user_age : Z) : Level :=
  let target_level := default 1 (ROLE_LEVELS !! lower target_role) in
  let user_level := default 0 (ROLE_LEVELS !! str "student") in
  let power_distance := target_level - user_level in
  if 3 <=? target_level then very_polite
  else if 0 <? power_distance then polite
  else if
    match target_age with
    | Some a => negb (a =? 0) && (user_age + 3 <? a)
    | None => false
    end
  then polite
  else if power_distance <=? 0 then informal
  else polite.

Definition analyze (text : pystr) (target_role : option pystr)
    (target_age : option Z) (user_age : Z) : Result :=
  let sentences := _split_sentences text in
  let '(level_counts, endings_found) :=
    foldl
      (fun '(counts, endings) sentence =>
         match _detect_sentence_level sentence with
         | (Some lvl, Some ending) =>
             (incr_count counts lvl,
              if bool_decide (ending = []) then endings
              else endings ++ [ending])
         | (Some lvl, None) => (incr_count counts lvl, endings)
         | (None, _) => (counts, endings)
         end)
      (mkCounts 0 0 0, []) sentences in
  let '(honorifics_found, honorific_score) :=
    foldl
      (fun '(found, total) '(word, points) =>
         if contains word text then (found ++ [word], total + points)
         else (found, total))
      ([], 0) HONORIFIC_WORDS in
  let dominant_level := _get_dominant_level level_counts honorific_score in
  let score := _calculate_score dominant_level honorific_score level_counts in
  let recommended_level :=
    match target_role with
    | Some (c :: r) => Some (_get_recommended_level (c :: r) target_age user_age)
    | _ => None
    end in
  let is_appropriate :=
    match recommended_level with
    | Some rec => _check_appropriateness dominant_level rec
    | None => true
    end in
  mkResult dominant_level score is_appropriate recommended_level
    level_counts (take 5 endings_found) (take 5 honorifics_found)
    honorific_score.

End Service.

(** *** Names and feedback

    [d[key]] on a dict raises [KeyError] for a missing key; such lookups
    return [None] here. *)

(** [level_names] of [analyze]: (Korean, English). *)
Definition level_names (l : Level) : option (pystr * pystr) :=
  match l with
  | informal => Some (str "반말", str "Informal")
  | polite => Some (str "존댓말", str "Polite")
  | very_polite => Some (str "격식체", str "Formal/Very Polite")
  | _ => None
  end.

Definition level_names_ko (l : Level) : option pystr :=
  match l with
  | informal => Some (str "반말")
  | polite => Some (str "존댓말(-요)")
  | very_polite => Some (str "격식체(-습니다)")
  | _ => None
  end.

Definition level_names_en (l : Level) : option pystr :=
  match l with
  | informal => Some (str "informal speech")
  | polite => Some (str "polite speech (-요)")
  | very_polite => Some (str "formal speech (-습니다)")
  | _ => None
  end.

Definition role_names_ko : gmap pystr pystr :=
  list_to_map
    [ (str "professor", str "교수님"); (str "boss", str "상사");
      (str "senior", str "선배"); (str "friend", str "친구");
      (str "junior", str "후배") ].

Section Feedback.

Variable lower : pystr -> pystr.
Variable isspace : N -> bool.

Definition _generate_feedback (actual recommended : Level)
    (target_role : pystr) : option (pystr * pystr) :=
  actual_ko ← level_names_ko actual;
  recommended_ko ← level_names_ko recommended;
  let role_ko := default target_role (role_names_ko !! lower target_role) in
  let feedback_ko :=
    role_ko ++ str "에게는 " ++ recommended_ko ++
    str "를 사용하세요. 현재 " ++ actual_ko ++ str "를 사용하고 있습니다." in
  recommended_en ← level_names_en recommended;
  actual_en ← level_names_en actual;
  let feedback_en :=
    str "Please use " ++ recommended_en ++ str " when speaking to " ++
    target_role ++ str ". You are currently using " ++ actual_en ++ str "." in
  Some (feedback_ko, feedback_en).

(** The part of [analyze]'s result that [Result] leaves out: the two level
    names and the feedback pair (present only for an inappropriate level);
    [None] when one of the dict lookups raises. *)
Definition analyze_presentation (text : pystr) (target_role : option pystr)
    (target_age : option Z) (user_age : Z)
    : option (pystr * pystr * option (pystr * pystr)) :=
  let res := analyze lower isspace text target_role target_age user_age in
  let feedback :=
    match target_role, recommended_level res with
    | Some (c :: r), Some rec =>
        if negb (is_appropriate res)
        then Some (_generate_feedback (level res) rec (c :: r))
        else None
    | _, _ => None
    end in
  names ← level_names (level res);
  match feedback with
  | Some None => None
  | Some (Some fb) => Some (names.1, names.2, Some fb)
  | None => Some (names.1, names.2, None)
  end.

End Feedback.

End PolitenessService.

(** ** Python list helpers *)

Module PyList.

Section SortByKey.
Context {A : Type} (key : A -> Z).

(** [list.sort(key=key)] is a stable sort: the head of the list is placed
    in front of the first element of the sorted tail whose key is not
    smaller, hence in front of the later elements with the same key. *)
Fixpoint insert_by_key (x : A) (l : list A) : list A :=
  match l with
  | [] => [x]
  | y :: l' => if key x <=? key y then x :: l else y :: insert_by_key x l'
  end.

Fixpoint sort_by_key (l : list A) : list A :=
  match l with
  | [] => []
  | x :: l' => insert_by_key x (sort_by_key l')
  end.

End SortByKey.

(** [min(values)] of a non-empty list (the empty list raises). *)
Definition py_min (values : list Z) : option Z :=
  match values with
  | [] => None
  | v :: vs => Some (foldl Z.min v vs)
  end.

(** Lookup in an insertion-ordered dict. *)
Fixpoint assoc {K V : Type} `{EqDecision K} (k : K) (d : list (K * V))
    : option V :=
  match d with
  | [] => None
  | (k', v) :: d' => if decide (k = k') then Some v else assoc k d'
  end.

End PyList.
Import PyList.

(** ** app/services/enhanced_politeness_service.py: the word-level service *)

Module WordAnalysis.
Record t : Type := mk {
  word : pystr;
  position_start : Z;
  position_end : Z;
  current_level : Level;
  expected_level : option Level;
  is_correct : bool;
  suggestion : option pystr;
  error_type : option pystr
}.
End WordAnalysis.

Module Correction.
Record t : Type := mk {
  original : pystr;
  corrected : pystr;
  reason_ko : pystr;
  reason_en : pystr;
  position_start : Z;
  position_end : Z
}.
End Correction.

Module ErrorDetail.
Record t : Type := mk {
  error_type : pystr;
  name_ko : pystr;
  name_en : pystr;
  severity : pystr;
  count : Z;
  examples : list pystr
}.
End ErrorDetail.

Module EnhancedPolitenessResult.
Record t : Type := mk {
  level : Level;
  score : Z;
  is_appropriate : bool;
  level_breakdown : list (Level * Z);
  word_analysis : list WordAnalysis.t;
  corrections : list Correction.t;
  errors : list ErrorDetail.t;
  recommended_level : option Level;
  text_length : Z;
  word_count : Z;
  error_count : Z
}.
End EnhancedPolitenessResult.

Module EnhancedPolitenessService.

Definition _compiled_patterns : list (Level * list Pattern) :=
  map (fun '(lvl, ps) => (lvl, map Re.compile ps)) ENDING_PATTERNS.

Definition informal_markers : list pystr :=
  [ str "해"; str "가"; str "와"; str "먹어"; str "있어"; str "없어";
    str "했어"; str "뭐해"; str "해줘" ].

Definition polite_markers : list pystr :=
  [ str "해요"; str "가요"; str "와요"; str "먹어요"; str "있어요";
    str "없어요"; str "했어요"; str "주세요" ].

Definition formal_markers : list pystr :=
  [ str "합니다"; str "갑니다"; str "옵니다"; str "있습니다"; str "없습니다";
    str "했습니다"; str "주십시오" ].

Definition _build_word_level_map : gmap pystr Level :=
  let put (lvl : Level) (m : gmap pystr Level) (w : pystr) := <[w := lvl]> m in
  let m := foldl (put informal) ∅ informal_markers in
  let m := foldl (put polite) m polite_markers in
  let m := foldl (put very_polite) m formal_markers in
  foldl (put honorific) m (map fst HONORIFIC_WORDS).

Definition _word_levels : gmap pystr Level := _build_word_level_map.

(** [level_order = {"informal": 0, "polite": 1, "very_polite": 2}] *)
Definition level_order (l : Level) : option Z :=
  match l with
  | informal => Some 0
  | polite => Some 1
  | very_polite => Some 2
  | _ => None
  end.

Definition _detect_word_level (word : pystr) : Level :=
  match _word_levels !! word with
  | Some lvl => lvl
  | None =>
      match
        list_find (fun '(lvl, patterns) =>
                     existsb (fun p => Re.search p word) patterns)
                  _compiled_patterns
      with
      | Some (_, (lvl, _)) => lvl
      | None =>
          if existsb (fun hon_word => contains hon_word word)
                     (map fst HONORIFIC_WORDS)
          then honorific
          else neutral
      end
  end.

Definition _is_word_correct (current expected : Level) : bool :=
  match current with
  | neutral => true
  | honorific => true
  | _ =>
      let current_val := default 1 (level_order current) in
      let expected_val := default 1 (level_order expected) in
      expected_val <=? current_val
  end.

Definition _get_suggestion (word : pystr) (current expected : Level)
    : option pystr :=
  match current, expected with
  | informal, polite => INFORMAL_TO_POLITE !! word
  | informal, very_polite => INFORMAL_TO_FORMAL !! word
  | polite, very_polite => POLITE_TO_FORMAL !! word
  | _, _ => None
  end.

Definition _get_error_type (current expected : Level) : pystr :=
  match current with
  | informal | polite | very_polite => str "ending_mismatch"
  | _ => str "tone_inappropriate"
  end.

(** The [counts] dict, in insertion order. *)
Definition zero_counts : list (Level * Z) :=
  [ (informal, 0); (polite, 0); (very_polite, 0); (honorific, 0) ].

Definition incr (l : Level) (counts : list (Level * Z)) : list (Level * Z) :=
  map (fun '(k, v) => if decide (k = l) then (k, v + 1) else (k, v)) counts.

Definition level_counts (analyses : list WordAnalysis.t) : list (Level * Z) :=
  foldl (fun counts a => incr (WordAnalysis.current_level a) counts)
        zero_counts analyses.

Definition _calculate_level_breakdown (analyses : list WordAnalysis.t)
    : list (Level * Z) :=
  let counts := level_counts analyses in
  let total := foldr Z.add 0 (map snd counts) in
  if total =? 0 then zero_counts
  else map (fun '(lvl, count) => (lvl, PyFloat.round2 (PyFloat.div count total)))
           counts.

(** [breakdown.get(level, 0)], in hundredths. *)
Definition ratio (breakdown : list (Level * Z)) (l : Level) : Z :=
  default 0 (assoc l breakdown).

Definition _get_dominant_level (breakdown : list (Level * Z)) : Level :=
  let non_zero :=
    map fst
      (filter (fun e => 0 < snd e /\ fst e <> honorific) breakdown) in
  let is_mixed :=
    if (1 <? length non_zero)%nat then
      match py_min (map (fun l => ratio breakdown l) non_zero) with
      | Some m => 20 <? m
      | None => false
      end
    else false in
  if is_mixed then mixed
  else if 0 <? ratio breakdown very_polite then very_polite
  else if 0 <? ratio breakdown polite then polite
  else if 0 <? ratio breakdown informal then informal
  else polite.

Definition _get_correction_reason (current expected : Level) : pystr * pystr :=
  match current, expected with
  | informal, polite =>
      (str "반말 대신 존댓말(-요)을 사용하세요",
       str "Use polite speech (-요) instead of informal")
  | informal, very_polite =>
      (str "반말 대신 격식체(-습니다)를 사용하세요",
       str "Use formal speech (-습니다) instead of informal")
  | polite, very_polite =>
      (str "존댓말 대신 격식체(-습니다)를 사용하세요",
       str "Use formal speech (-습니다) instead of polite")
  | _, _ => ([], [])
  end.

Definition _generate_corrections (text : pystr)
    (analyses : list WordAnalysis.t) (expected_level : Level)
    : list Correction.t :=
  omap
    (fun a =>
       match WordAnalysis.is_correct a, WordAnalysis.suggestion a with
       | false, Some (c :: r) =>
           let '(reason_ko, reason_en) :=
             _get_correction_reason (WordAnalysis.current_level a)
                                    expected_level in
           Some (Correction.mk (WordAnalysis.word a) (c :: r)
                   reason_ko reason_en
                   (WordAnalysis.position_start a)
                   (WordAnalysis.position_end a))
       | _, _ => None
       end)
    analyses.

(** [error_counts]: error type -> examples, in insertion order. *)
Fixpoint add_example (k ex : pystr) (d : list (pystr * list pystr))
    : list (pystr * list pystr) :=
  match d with
  | [] => [(k, [ex])]
  | (k', exs) :: d' =>
      if decide (k = k') then (k', exs ++ [ex]) :: d'
      else (k', exs) :: add_example k ex d'
  end.

Definition example_of (a : WordAnalysis.t) : pystr :=
  WordAnalysis.word a ++ str " → " ++
  match WordAnalysis.suggestion a with
  | Some (c :: r) => c :: r
  | _ => str "?"
  end.

Definition error_counts (analyses : list WordAnalysis.t)
    : list (pystr * list pystr) :=
  foldl
    (fun d a =>
       match WordAnalysis.error_type a with
       | Some (c :: r) => add_example (c :: r) (example_of a) d
       | _ => d
       end)
    [] analyses.

Definition error_detail (entry : pystr * list pystr) : ErrorDetail.t :=
  let '(error_type, examples) := entry in
  let info := ERROR_CATEGORIES !! error_type in
  ErrorDetail.mk error_type
    (default error_type (name_ko <$> info))
    (default error_type (name_en <$> info))
    (default (str "medium") (severity <$> info))
    (Z.of_nat (length examples))
    (take 3 examples).

Definition severity_order : gmap pystr Z :=
  list_to_map [ (str "high", 0); (str "medium", 1); (str "low", 2) ].

Definition severity_key (e : ErrorDetail.t) : Z :=
  default 1 (severity_order !! ErrorDetail.severity e).

Definition _categorize_errors (analyses : list WordAnalysis.t)
    : list ErrorDetail.t :=
  let errors := map error_detail (error_counts analyses) in
  sort_by_key severity_key errors.

Definition _calculate_score (dominant expected : Level)
    (breakdown : list (Level * Z)) (error_count : Z) : Z :=
  let base_score := 50 in
  let dominant_val := default 1 (level_order dominant) in
  let expected_val := default 1 (level_order expected) in
  let base_score :=
    if expected_val <=? dominant_val then base_score + 30
    else if dominant_val =? expected_val - 1 then base_score + 10
    else base_score - 10 in
  let max_ratio :=
    Z.max (Z.max (ratio breakdown informal) (ratio breakdown polite))
          (ratio breakdown very_polite) in
  let base_score :=
    if 80 <? max_ratio then base_score + 15
    else if max_ratio <? 50 then base_score - 10
    else base_score in
  let base_score := base_score - Z.min (error_count * 5) 20 in
  let base_score :=
    if 0 <? ratio breakdown honorific then base_score + 5 else base_score in
  Z.max 0 (Z.min 100 base_score).

Definition _check_appropriateness (actual expected : Level) : bool :=
  match actual with
  | mixed => false
  | _ =>
      default 1 (level_order expected) <=? default 1 (level_order actual)
  end.

Section Service.

(** [str.lower], regex [\w], and the white-space class of [\s] and
    [str.strip]. *)
Variable lower : pystr -> pystr.
Variable isword : N -> bool.
Variable isspace : N -> bool.

Definition _get_expected_level (target_role : option pystr)
    (target_age : option Z) (user_age : Z) : Level :=
  match target_role with
  | None | Some [] => polite
  | Some role =>
      let target_level := default 1 (ROLE_LEVELS !! lower role) in
      if 3 <=? target_level then very_polite
      else if 2 <=? target_level then polite
      else informal
  end.

Definition flush (cur : pystr) : list pystr :=
  match cur with
  | [] => []
  | _ => [rev cur]
  end.

(** [re.findall(r'[\w가-힣]+|[^\s\w]', text)]; [cur] is the run of word
    characters being read, reversed. *)
Fixpoint tokenize_go (text cur : pystr) : list pystr :=
  match text with
  | [] => flush cur
  | c :: r =>
      if isword c || is_hangul_syllable c then tokenize_go r (c :: cur)
      else if negb (isspace c) && negb (isword c)
      then flush cur ++ [c] :: tokenize_go r []
      else flush cur ++ tokenize_go r []
  end.

Definition _tokenize (text : pystr) : list pystr := tokenize_go text [].

Fixpoint analyze_words_go (text : pystr) (expected_level : Level)
    (words : list pystr) (position : Z) : list WordAnalysis.t :=
  match words with
  | [] => []
  | word :: words' =>
      let word_clean := strip isspace word in
      match word_clean with
      | [] => analyze_words_go text expected_level words' position
      | _ =>
          let start := find text word_clean position in
          let end_ := start + Z.of_nat (length word_clean) in
          let current_level := _detect_word_level word_clean in
          let is_correct := _is_word_correct current_level expected_level in
          let '(suggestion, error_type) :=
            if negb is_correct && negb (bool_decide (current_level = neutral))
            then (_get_suggestion word_clean current_level expected_level,
                  Some (_get_error_type current_level expected_level))
            else (None, None) in
          WordAnalysis.mk word_clean start end_ current_level
            (if bool_decide (current_level = neutral) then None
             else Some expected_level)
            is_correct suggestion error_type
          :: analyze_words_go text expected_level words' end_
      end
  end.

Definition _analyze_words (text : pystr) (expected_level : Level)
    : list WordAnalysis.t :=
  analyze_words_go text expected_level (_tokenize text) 0.

Definition analyze (text : pystr) (target_role : option pystr)
    (target_age : option Z) (user_age : Z) : EnhancedPolitenessResult.t :=
  let expected_level := _get_expected_level target_role target_age user_age in
  let word_analyses := _analyze_words text expected_level in
  let level_breakdown := _calculate_level_breakdown word_analyses in
  let dominant_level := _get_dominant_level level_breakdown in
  let corrections := _generate_corrections text word_analyses expected_level in
  let errors := _categorize_errors word_analyses in
  let score :=
    _calculate_score dominant_level expected_level level_breakdown
      (Z.of_nat (length errors)) in
  let is_appropriate := _check_appropriateness dominant_level expected_level in
  EnhancedPolitenessResult.mk dominant_level score is_appropriate
    level_breakdown word_analyses corrections errors (Some expected_level)
    (Z.of_nat (length text)) (Z.of_nat (length word_analyses))
    (foldr Z.add 0 (map ErrorDetail.count errors)).

End Service.

(** *** Names and feedback *)

(** The level names as the services write them. *)
Definition level_str (l : Level) : pystr :=
  match l with
  | informal => str "informal"
  | polite => str "polite"
  | very_polite => str "very_polite"
  | neutral => str "neutral"
  | honorific => str "honorific"
  | mixed => str "mixed"
  end.

(** [str(n)] for an int. *)
Definition py_str_int (n : Z) : pystr :=
  str (NilZero.string_of_int (Z.to_int n)).

(** [level_names.get(level, ("", ""))] of [analyze]. *)
Definition level_names (l : Level) : pystr * pystr :=
  match l with
  | informal => (str "반말", str "Informal")
  | polite => (str "존댓말", str "Polite")
  | very_polite => (str "격식체", str "Formal")
  | mixed => (str "혼용체", str "Mixed")
  | _ => ([], [])
  end.

(** [level_names_ko.get(level, level)] of [_generate_feedback]. *)
Definition level_names_ko (l : Level) : pystr :=
  match l with
  | informal => str "반말"
  | polite => str "존댓말(-요)"
  | very_polite => str "격식체(-습니다)"
  | mixed => str "혼용체"
  | _ => level_str l
  end.

Definition role_names_ko : gmap pystr pystr :=
  list_to_map
    [ (str "professor", str "교수님"); (str "boss", str "상사");
      (str "senior", str "선배"); (str "friend", str "친구");
      (str "junior", str "후배") ].

Definition praise : pystr * pystr :=
  (str "잘했어요! 적절한 말투를 사용했습니다.",
   str "Great job! You used appropriate speech level.").

Definition _generate_feedback (actual expected : Level)
    (target_role : option pystr) (errors : list ErrorDetail.t)
    : pystr * pystr :=
  if bool_decide (actual = expected) || _check_appropriateness actual expected
  then praise
  else
    let role_ko :=
      match target_role with
      | Some (c :: r) => default (c :: r) (role_names_ko !! (c :: r))
      | _ => str "상대방"
      end in
    let expected_ko := level_names_ko expected in
    let actual_ko := level_names_ko actual in
    let feedback_ko :=
      role_ko ++ str "에게는 " ++ expected_ko ++ str "를 사용하세요. 현재 " ++
      actual_ko ++ str "를 사용하고 있습니다." in
    let feedback_ko :=
      match errors with
      | top_error :: _ =>
          feedback_ko ++ str " (" ++ ErrorDetail.name_ko top_error ++
          str " 오류 " ++ py_str_int (ErrorDetail.count top_error) ++ str "개)"
      | [] => feedback_ko
      end in
    let feedback_en :=
      str "Use " ++ level_str expected ++ str " speech with " ++
      match target_role with
      | Some role => role
      | None => str "None"
      end ++ str ". Currently using " ++ level_str actual ++ str "." in
    (feedback_ko, feedback_en).

Section Presentation.

Variable lower : pystr -> pystr.
Variable isword : N -> bool.
Variable isspace : N -> bool.

(** The part of [analyze]'s result that [EnhancedPolitenessResult.t] leaves
    out: the two level names and the feedback pair. *)
Definition analyze_presentation (text : pystr) (target_role : option pystr)
    (target_age : option Z) (user_age : Z)
    : pystr * pystr * (pystr * pystr) :=
  let res :=
    analyze lower isword isspace text target_role target_age user_age in
  let expected_level := _get_expected_level lower target_role target_age
                          user_age in
  let names := level_names (EnhancedPolitenessResult.level res) in
  (names.1, names.2,
   _generate_feedback (EnhancedPolitenessResult.level res) expected_level
     target_role (EnhancedPolitenessResult.errors res)).

End Presentation.

End EnhancedPolitenessService.

(** ** app/api/v1/analysis.py: the relationship endpoint *)

Module AnalysisApi.

Inductive Difficulty : Type := easy | medium | hard.

Record Relationship : Type := mkRelationship {
  difficulty : Difficulty;
  difficulty_score : PyFloat.float;
  recommended_formality : Level;
  power_distance : Z;
  age_gap : Z;
  tips : list pystr
}.

Definition _get_relationship_tips (formality : Level) (role : pystr)
    : list pystr :=
  match formality with
  | very_polite =>
      [ str "격식체(-습니다/-습니까)를 사용하세요";
        str "높임 표현(드리다, 여쭙다)을 적극 활용하세요" ] ++
      (if bool_decide (role = str "professor")
       then [ str "'교수님'이라고 호칭하세요" ] else [])
  | polite =>
      [ str "존댓말(-요)을 기본으로 사용하세요";
        str "친근하지만 예의 바르게 대화하세요" ] ++
      (if bool_decide (role = str "senior")
       then [ str "'선배(님)'이라고 호칭하세요" ] else [])
  | _ =>
      [ str "반말을 사용해도 괜찮아요"; str "편하게 대화하세요" ]
  end.

Section Endpoint.

Variable lower : pystr -> pystr.

Definition analyze_relationship (user_role : pystr) (user_age : Z)
    (avatar_role : pystr) (avatar_age : Z) : Relationship :=
  let user_level := default 0 (ROLE_LEVELS !! lower user_role) in
  let avatar_level := default 1 (ROLE_LEVELS !! lower avatar_role) in
  let power_distance := avatar_level - user_level in
  let age_gap := avatar_age - user_age in
  let '(difficulty, difficulty_score) :=
    if (3 <=? avatar_level) || (20 <? age_gap) then (hard, PyFloat.div 4 5)
    else if (0 <? power_distance) || (5 <? age_gap)
    then (medium, PyFloat.div 1 2)
    else (easy, PyFloat.div 1 5) in
  let formality :=
    if 3 <=? avatar_level then very_polite
    else if 0 <? power_distance then polite
    else informal in
  mkRelationship difficulty difficulty_score formality power_distance age_gap
    (_get_relationship_tips formality avatar_role).

End Endpoint.

End AnalysisApi.

Module PS := PolitenessService.
Module EPS := EnhancedPolitenessService.

(** ** Notions of the specification *)

(** Hierarchy level of a role: the table entry of the lower-cased role,
    1 for a role that is not in the table. *)
Definition role_level (lower : pystr -> pystr) (role : pystr) : Z :=
  default 1 (ROLE_LEVELS !! lower role).

(** The age escalation: a target age is given and exceeds the speaker's
    age by more than three years. *)
Definition age_escalation (target_age : option Z) (speaker_age : Z) : bool :=
  match target_age with
  | Some a => speaker_age + 3 <? a
  | None => false
  end.

(** The relationship policy as the specification words it, the speaker
    being a student (level 0). *)
Definition expected_register_rule (level : Z) (target_age : option Z)
    (speaker_age : Z) : Level :=
  if 3 <=? level then very_polite
  else if 0 <? level - 0 then polite
  else if age_escalation target_age speaker_age then polite
  else informal.

(** The three main registers and their rank, Informal < Polite < VeryPolite. *)
Definition is_main (l : Level) : bool :=
  match l with
  | informal | polite | very_polite => true
  | _ => false
  end.

Definition rank (l : Level) : nat :=
  match l with
  | informal => 0
  | polite => 1
  | very_polite => 2
  | _ => 0
  end.

(** Sum of the weights of the honorific markers that occur in a text. *)
Definition honorific_weight (text : pystr) : Z :=
  foldr Z.add 0
    (map snd (filter (fun e => contains (fst e) text = true) HONORIFIC_WORDS)).

(** Number of tokens detected at a level. *)
Definition count_level (analyses : list WordAnalysis.t) (l : Level) : Z :=
  Z.of_nat
    (length (filter (fun a => WordAnalysis.current_level a = l) analyses)).

(** Tokens that bear one of the three main registers. *)
Definition register_bearing (analyses : list WordAnalysis.t) : Z :=
  count_level analyses informal + count_level analyses polite +
  count_level analyses very_polite.

(** Tokens counted by the level breakdown: the register-bearing ones and
    the honorific ones. *)
Definition tagged (analyses : list WordAnalysis.t) : Z :=
  register_bearing analyses + count_level analyses honorific.

(** A main register accounts for more than 20% of the register-bearing
    tokens. *)
Definition above_20pct (analyses : list WordAnalysis.t) (l : Level) : bool :=
  20 * register_bearing analyses <? 100 * count_level analyses l.

Definition two_or_more_above_20pct (analyses : list WordAnalysis.t) : bool :=
  (2 <=? length (filter (fun l => above_20pct analyses l = true)
                        [informal; polite; very_polite]))%nat.

(** The ratio of a level as the breakdown computes it. *)
Definition rounded_share (analyses : list WordAnalysis.t) (l : Level) : Z :=
  PyFloat.round2 (PyFloat.div (count_level analyses l) (tagged analyses)).

(** The mixed test on a breakdown: at least two main registers have a
    positive ratio, and every positive main ratio exceeds 0.2. *)
Definition mixed_condition (x y z : Z) : Prop :=
  ((0 < x /\ 0 < y) \/ (0 < x /\ 0 < z) \/ (0 < y /\ 0 < z)) /\
  (0 < x -> 20 < x) /\ (0 < y -> 20 < y) /\ (0 < z -> 20 < z).

(** The conversion table selected by a (detected, expected) pair. *)
Definition conversion_table (detected expected : Level)
    : option (gmap pystr pystr) :=
  match detected, expected with
  | informal, polite => Some INFORMAL_TO_POLITE
  | polite, very_polite => Some POLITE_TO_FORMAL
  | informal, very_polite => Some INFORMAL_TO_FORMAL
  | _, _ => None
  end.

Definition table_entry (detected expected : Level) (word : pystr)
    : option pystr :=
  match conversion_table detected expected with
  | Some tbl => tbl !! word
  | None => None
  end.

(** What [_analyze_words] establishes for every token it emits. *)
Definition token_inv (expected : Level) (a : WordAnalysis.t) : Prop :=
  WordAnalysis.is_correct a
    = EPS._is_word_correct (WordAnalysis.current_level a) expected /\
  WordAnalysis.suggestion a
    = (if WordAnalysis.is_correct a then None
       else EPS._get_suggestion (WordAnalysis.word a)
              (WordAnalysis.current_level a) expected) /\
  WordAnalysis.error_type a
    = (if WordAnalysis.is_correct a then None
       else Some (EPS._get_error_type (WordAnalysis.current_level a) expected))
  /\
  WordAnalysis.current_level a = EPS._detect_word_level (WordAnalysis.word a)
  /\
  WordAnalysis.expected_level a
    = (if bool_decide (WordAnalysis.current_level a = neutral) then None
       else Some expected).

(** The correction emitted for a token, if any, according to the tables. *)
Definition table_correction (expected : Level) (a : WordAnalysis.t)
    : option Correction.t :=
  if WordAnalysis.is_correct a then None
  else
    match table_entry (WordAnalysis.current_level a) expected
            (WordAnalysis.word a) with
    | Some v =>
        Some (Correction.mk (WordAnalysis.word a) v
                (EPS._get_correction_reason (WordAnalysis.current_level a)
                   expected).1
                (EPS._get_correction_reason (WordAnalysis.current_level a)
                   expected).2
                (WordAnalysis.position_start a) (WordAnalysis.position_end a))
    | None => None
    end.


(** The error types of a token list (the truthy ones), and the order in
    which distinct types first occur. *)
Definition error_types (analyses : list WordAnalysis.t) : list pystr :=
  omap (fun a => match WordAnalysis.error_type a with
                 | Some (c :: r) => Some (c :: r)
                 | _ => None
                 end) analyses.

Definition first_occurrences (ks : list pystr) : list pystr :=
  foldl (fun seen k => if bool_decide (k ∈ seen) then seen else seen ++ [k])
        [] ks.



(** ** Notions used by the further properties *)

(** A character of a word token of the tokenizer: [\w] or a Hangul syllable. *)
Definition token_char (isword : N -> bool) (c : N) : bool :=
  isword c || is_hangul_syllable c.

(** A character the tokenizer keeps: every one but white space outside
    [\w] and the Hangul syllables. *)
Definition kept (isword isspace : N -> bool) (c : N) : bool :=
  token_char isword c || negb (isspace c).

(** The fact about Unicode that the tokenizer relies on: a word character
    is not white space. *)
Definition word_chars_not_space (isword isspace : N -> bool) : Prop :=
  forall c, token_char isword c = true -> isspace c = false.

(** A token is a run of word characters or one other non-space character. *)
Definition token_shape (isword isspace : N -> bool) (t : pystr) : Prop :=
  (t <> [] /\ Forall (fun c => token_char isword c = true) t) \/
  (exists c, t = [c] /\ token_char isword c = false /\ isspace c = false).

(** [layout s toks]: the tokens occur in [s] one after the other, separated
    by white space only. *)
Inductive layout (isspace : N -> bool) : pystr -> list pystr -> Prop :=
  | layout_nil s : layout isspace s []
  | layout_cons gap t s ts :
      Forall (fun c => isspace c = true) gap ->
      t <> [] ->
      Forall (fun c => isspace c = false) t ->
      layout isspace s ts ->
      layout isspace (gap ++ t ++ s) (t :: ts).

(** The slice [text[i:j]] for [0 <= i <= j]. *)
Definition slice (text : pystr) (i j : Z) : pystr :=
  take (Z.to_nat (j - i)) (drop (Z.to_nat i) text).

(** The spans of the analyses lie in the text from [pos] on, in order and
    without overlap, and each covers its own word. *)
Fixpoint spans_from (text : pystr) (pos : Z) (l : list WordAnalysis.t)
    : Prop :=
  match l with
  | [] => True
  | a :: l' =>
      pos <= WordAnalysis.position_start a /\
      WordAnalysis.position_end a
        = WordAnalysis.position_start a
          + Z.of_nat (length (WordAnalysis.word a)) /\
      WordAnalysis.position_end a <= Z.of_nat (length text) /\
      slice text (WordAnalysis.position_start a) (WordAnalysis.position_end a)
        = WordAnalysis.word a /\
      spans_from text (WordAnalysis.position_end a) l'
  end.


(** The error type a token contributes to the error summaries, if any. *)
Definition token_error (a : WordAnalysis.t) : option pystr :=
  match WordAnalysis.error_type a with
  | Some (c :: r) => Some (c :: r)
  | _ => None
  end.

(** The tokens that carry a given error type, in token order. *)
Definition tokens_with_error (k : pystr) (analyses : list WordAnalysis.t)
    : list WordAnalysis.t :=
  filter (fun a => token_error a = Some k) analyses.

(** The largest number of characters a regex can consume, and whether it
    contains the anchor [$]. *)
Fixpoint reach (re : Re.regex) : nat :=
  match re with
  | [] => 0
  | Re.Eol :: re' => reach re'
  | _ :: re' => S (reach re')
  end.

Definition anchored (re : Re.regex) : bool :=
  existsb (fun i => match i with Re.Eol => true | _ => false end) re.

(** Sentences that the sentence-level service detects at level [l]. *)
Definition sentences_at (isspace : N -> bool) (l : Level)
    (sentences : list pystr) : Z :=
  Z.of_nat
    (length
       (filter (fun s => (PS._detect_sentence_level isspace s).1 = Some l)
               sentences)).

(** ** Worked inputs *)

Definition text_mixed : pystr := str "안녕하세요. 뭐해?".
Definition text_friend : pystr := str "밥 먹었어?".
Definition text_professor : pystr := str "교수님 질문이 있어요".
Definition text_two_honorifics : pystr := str "여쭙다 드리다".
Definition text_three_registers : pystr := str "해 해 해요 해요 합니다".
Definition text_informal_honorific : pystr := str "해 말씀".

(** The analysis of the token "있어요" of [text_professor]. *)
Definition token_isseoyo : WordAnalysis.t :=
  WordAnalysis.mk (str "있어요") 8 11 polite (Some very_polite) false
    (Some (str "있습니다")) (Some (str "ending_mismatch")).

(** * Properties *)

(** ** Worked examples of the specification *)

Example example_friend :
  let res := EPS.analyze ascii_lower basic_isword py_isspace text_friend
               (Some (str "friend")) None 22 in
  EnhancedPolitenessResult.recommended_level res = Some informal /\
  EnhancedPolitenessResult.level res = informal /\
  EnhancedPolitenessResult.is_appropriate res = true /\
  EnhancedPolitenessResult.score res = 95.
Proof. repeat split; vm_compute; reflexivity. Qed.

Example example_professor :
  let res := EPS.analyze ascii_lower basic_isword py_isspace text_professor
               (Some (str "professor")) (Some 55) 22 in
  EnhancedPolitenessResult.recommended_level res = Some very_polite /\
  EnhancedPolitenessResult.level res = polite /\
  EnhancedPolitenessResult.is_appropriate res = false /\
  EnhancedPolitenessResult.corrections res
    = [ Correction.mk (str "있어요") (str "있습니다")
          (str "존댓말 대신 격식체(-습니다)를 사용하세요")
          (str "Use formal speech (-습니다) instead of polite") 8 11 ].
Proof. repeat split; vm_compute; reflexivity. Qed.

Example example_mixed :
  map WordAnalysis.word
      (EPS._analyze_words basic_isword py_isspace text_mixed informal)
    = [ str "안녕하세요"; str "."; str "뭐해"; str "?" ] /\
  map WordAnalysis.current_level
      (EPS._analyze_words basic_isword py_isspace text_mixed informal)
    = [ polite; neutral; informal; neutral ].
Proof. split; vm_compute; reflexivity. Qed.

Example example_sentences :
  PS._split_sentences py_isspace (str "안녕하세요. 뭐해? 네!")
    = [ str "안녕하세요"; str "뭐해"; str "네" ] /\
  PS._detect_sentence_level py_isspace (str "교수님 질문이 있어요")
    = (Some polite, Some (str "[아어]요[.?!]?$")).
Proof. split; vm_compute; reflexivity. Qed.

Example example_round2 :
  map (fun '(c, t) => PyFloat.round2 (PyFloat.div c t))
      [ (1, 3); (1, 8); (3, 8); (1, 200); (3, 200); (2, 5); (1, 1) ]
    = [ 33; 12; 38; 1; 1; 40; 100 ].
Proof. vm_compute. reflexivity. Qed.

(** ** Relationship policy *)

Lemma student_level : ROLE_LEVELS !! str "student" = Some 0.
Proof. vm_compute. reflexivity. Qed.

Lemma recommended_level_unfold lower role target_age user_age :
  PS._get_recommended_level lower role target_age user_age =
  let lvl := role_level lower role in
  if 3 <=? lvl then very_polite
  else if 0 <? lvl then polite
  else if match target_age with
          | Some a => negb (a =? 0) && (user_age + 3 <? a)
          | None => false
          end
       then polite
       else informal.
Proof.
  unfold PS._get_recommended_level, role_level.
  rewrite student_level. cbn [default from_option].
  generalize (default 1 (ROLE_LEVELS !! lower role)); intros lvl.
  cbv zeta. rewrite Z.sub_0_r.
  destruct (3 <=? lvl); [reflexivity|].
  destruct (0 <? lvl) eqn:Hpos; [reflexivity|].
  destruct (match target_age with Some a => _ | None => _ end);
    [reflexivity|].
  assert ((lvl <=? 0) = true) as -> by lia. reflexivity.
Qed.

Lemma expected_level_unfold lower role target_age user_age :
  role <> [] ->
  EPS._get_expected_level lower (Some role) target_age user_age =
  let lvl := role_level lower role in
  if 3 <=? lvl then very_polite
  else if 2 <=? lvl then polite
  else informal.
Proof. destruct role; [congruence|reflexivity]. Qed.

Lemma truthy_age_escalation target_age user_age :
  0 <= user_age ->
  match target_age with
  | Some a => negb (a =? 0) && (user_age + 3 <? a)
  | None => false
  end = age_escalation target_age user_age.
Proof.
  intros Hu. destruct target_age as [a|]; [|reflexivity]. cbn.
  destruct (Z.eqb_spec a 0) as [->|]; cbn; [|reflexivity].
  symmetry. lia.
Qed.

(** C1 (amended).  For a non-negative speaker age the sentence-level
    service's [_get_recommended_level] follows the stated rule: VeryPolite at
    level >= 3, else Polite when the level exceeds the speaker's level 0,
    else Polite on an age escalation, else Informal.  The word-level
    service's [_get_expected_level] uses other thresholds and no ages:
    VeryPolite at level >= 3, Polite at level 2, Informal below. *)
Theorem C1_expected_register lower role target_age user_age :
  0 <= user_age ->
  PS._get_recommended_level lower role target_age user_age =
    expected_register_rule (role_level lower role) target_age user_age
  /\ (role <> [] ->
      let e := EPS._get_expected_level lower (Some role) target_age user_age in
      (3 <= role_level lower role -> e = very_polite) /\
      (role_level lower role = 2 -> e = polite) /\
      (role_level lower role <= 1 -> e = informal)).
Proof.
  intros Hu. split.
  - rewrite recommended_level_unfold, truthy_age_escalation by assumption.
    unfold expected_register_rule. cbv zeta. rewrite Z.sub_0_r. reflexivity.
  - intros Hr. rewrite expected_level_unfold by assumption. cbv zeta.
    repeat split; intros Hl.
    + assert ((3 <=? role_level lower role) = true) as -> by lia. reflexivity.
    + rewrite Hl. reflexivity.
    + assert ((3 <=? role_level lower role) = false) as -> by lia.
      assert ((2 <=? role_level lower role) = false) as -> by lia. reflexivity.
Qed.

Lemma C1_expected_register_witness :
  0 <= 22 /\
  PS._get_recommended_level ascii_lower (str "senior") (Some 30) 22 =
    expected_register_rule (role_level ascii_lower (str "senior")) (Some 30) 22.
Proof.
  split; [lia|].
  destruct (C1_expected_register ascii_lower (str "senior") (Some 30) 22)
    as [H _]; [lia|exact H].
Defined.

(** C1 as stated fails on the word-level service: a friend has level 1, so
    the rule gives Polite, but [_get_expected_level] returns Informal. *)
Lemma C1_counterexample :
  expected_register_rule (role_level ascii_lower (str "friend")) None 22
    = polite /\
  EPS._get_expected_level ascii_lower (Some (str "friend")) None 22
    = informal.
Proof. split; vm_compute; reflexivity. Qed.

(** A role outside the table has hierarchy level 1. *)
Lemma unknown_role_level lower role :
  ROLE_LEVELS !! lower role = None -> role_level lower role = 1.
Proof. unfold role_level. intros ->. reflexivity. Qed.

(** C7 (the code departs from the claim).  A role string that is not in
    the role table maps to hierarchy level 1 in both services, which are
    total functions.  The word-level service then expects Informal, as the
    claim says (for a non-empty role string, whatever the ages).  The
    sentence-level service returns Polite instead: its test
    [power_distance > 0] already succeeds at level 1, so the branch
    commented "Peer or junior" is never reached by a peer. *)
Theorem C7_unknown_role lower role target_age user_age :
  ROLE_LEVELS !! lower role = None ->
  role_level lower role = 1 /\
  PS._get_recommended_level lower role target_age user_age = polite /\
  (role <> [] ->
   EPS._get_expected_level lower (Some role) target_age user_age = informal).
Proof.
  intros Hnone. pose proof (unknown_role_level _ _ Hnone) as Hl.
  split; [exact Hl|]. split.
  - rewrite recommended_level_unfold. cbv zeta. rewrite Hl. reflexivity.
  - intros Hr. rewrite expected_level_unfold by assumption. cbv zeta.
    rewrite Hl. reflexivity.
Qed.

Lemma C7_unknown_role_witness :
  ROLE_LEVELS !! ascii_lower (str "alien") = None /\
  role_level ascii_lower (str "alien") = 1 /\
  PS._get_recommended_level ascii_lower (str "alien") None 22 = polite.
Proof.
  assert (ROLE_LEVELS !! ascii_lower (str "alien") = None) as Hnone
    by (vm_compute; reflexivity).
  split; [exact Hnone|].
  destruct (C7_unknown_role ascii_lower (str "alien") None 22 Hnone)
    as (H1 & H2 & _).
  split; assumption.
Defined.

(** The failing input of C7: for the unknown role "alien" without any age
    escalation the sentence-level service recommends Polite, not Informal. *)
Lemma C7_counterexample :
  ROLE_LEVELS !! ascii_lower (str "alien") = None /\
  age_escalation None 22 = false /\
  PS._get_recommended_level ascii_lower (str "alien") None 22 <> informal.
Proof. repeat split; vm_compute; congruence. Qed.

(** C10 (amended).  For a non-empty role whose level is not 1 and a
    non-negative speaker age the two services expect the same register
    exactly when the role's level is at least 2 or there is no age
    escalation.  At level 0 or below with an age escalation the
    sentence-level service expects Polite, and the word-level one, which has
    no age rule, Informal.  Nothing is stated here for the roles of level 1
    (friend, peer, unknown role): see C7. *)
Theorem C10_services_agree lower role target_age user_age :
  role <> [] ->
  0 <= user_age ->
  role_level lower role <> 1 ->
  let basic := PS._get_recommended_level lower role target_age user_age in
  let enhanced :=
    EPS._get_expected_level lower (Some role) target_age user_age in
  (basic = enhanced <->
   (2 <= role_level lower role \/
    age_escalation target_age user_age = false)) /\
  (role_level lower role <= 0 ->
   age_escalation target_age user_age = true ->
   basic = polite /\ enhanced = informal).
Proof.
  intros Hr Hu. cbv zeta.
  rewrite recommended_level_unfold, expected_level_unfold by assumption.
  rewrite truthy_age_escalation by assumption. cbv zeta.
  generalize (role_level lower role); intros lvl Hne.
  destruct (Z.leb_spec 3 lvl); [|destruct (Z.leb_spec 2 lvl)].
  - split; [split; [intros _; left; lia|reflexivity]|]. intros; lia.
  - assert ((0 <? lvl) = true) as -> by lia.
    split; [split; [intros _; left; lia|reflexivity]|]. intros; lia.
  - assert ((0 <? lvl) = false) as -> by lia.
    destruct (age_escalation target_age user_age).
    + split; [split; [discriminate|]|].
      * intros [?|?]; [lia|discriminate].
      * intros _ _. split; reflexivity.
    + split; [split; [intros _; right; reflexivity|reflexivity]|].
      intros _ ?. discriminate.
Qed.

Lemma C10_services_agree_witness :
  str "senior" <> [] /\ 0 <= 22 /\
  role_level ascii_lower (str "senior") <> 1 /\
  PS._get_recommended_level ascii_lower (str "senior") (Some 50) 22 =
  EPS._get_expected_level ascii_lower (Some (str "senior")) (Some 50) 22.
Proof.
  assert (str "senior" <> []) as Hr by (vm_compute; discriminate).
  assert (0 <= 22) as Hu by lia.
  assert (role_level ascii_lower (str "senior") <> 1) as Hl
    by (vm_compute; discriminate).
  split; [exact Hr|]. split; [exact Hu|]. split; [exact Hl|].
  destruct (C10_services_agree ascii_lower (str "senior") (Some 50) 22 Hr Hu
              Hl) as [[_ Hagree] _].
  apply Hagree. left. vm_compute. discriminate.
Defined.

(** C10 as stated fails: for a junior of age 50 and a speaker of age 22 the
    sentence-level service applies its age rule and expects Polite, the
    word-level service has no age rule and expects Informal. *)
Lemma C10_counterexample :
  PS._get_recommended_level ascii_lower (str "junior") (Some 50) 22 = polite /\
  EPS._get_expected_level ascii_lower (Some (str "junior")) (Some 50) 22
    = informal /\
  PS._get_recommended_level ascii_lower (str "junior") (Some 50) 22 <>
  EPS._get_expected_level ascii_lower (Some (str "junior")) (Some 50) 22.
Proof. repeat split; vm_compute; congruence. Qed.

(** ** Register classifier *)

(** The honorific score accumulated by the sentence-level [analyze] is the
    weight sum of the markers that occur in the text. *)
Lemma honorific_fold text (words : list (pystr * Z)) found total :
  snd (foldl
         (fun '(found, total) '(word, points) =>
            if contains word text then (found ++ [word], total + points)
            else (found, total))
         (found, total) words)
  = total +
    foldr Z.add 0
      (map snd (filter (fun e => contains (fst e) text = true) words)).
Proof.
  revert found total.
  induction words as [|[word points] words IH]; intros found total.
  - cbn. lia.
  - cbn [foldl]. rewrite filter_cons. cbn [fst].
    destruct (contains word text) eqn:Hc.
    + rewrite IH. rewrite decide_True by reflexivity. cbn. lia.
    + rewrite IH. rewrite decide_False by discriminate. reflexivity.
Qed.

Lemma analyze_honorific_score lower isspace text role target_age user_age :
  PS.honorific_score (PS.analyze lower isspace text role target_age user_age)
  = honorific_weight text.
Proof.
  unfold PS.analyze.
  destruct (foldl _ (PS.mkCounts 0 0 0, []) _) as [counts endings].
  pose proof (honorific_fold text HONORIFIC_WORDS [] 0) as Hf.
  destruct (foldl _ ([], 0) HONORIFIC_WORDS) as [found total].
  cbn [snd] in Hf. cbn [PS.honorific_score]. rewrite Hf.
  unfold honorific_weight. lia.
Qed.

Lemma analyze_level lower isspace text role target_age user_age :
  PS.level (PS.analyze lower isspace text role target_age user_age)
  = PS._get_dominant_level
      (PS.level_counts
         (PS.analyze lower isspace text role target_age user_age))
      (PS.honorific_score
         (PS.analyze lower isspace text role target_age user_age)).
Proof.
  unfold PS.analyze.
  destruct (foldl _ (PS.mkCounts 0 0 0, []) _) as [counts endings].
  destruct (foldl _ ([], 0) HONORIFIC_WORDS) as [found total].
  reflexivity.
Qed.

Lemma count_level_cons x analyses l :
  count_level (x :: analyses) l =
  (if decide (WordAnalysis.current_level x = l) then 1 else 0)
  + count_level analyses l.
Proof.
  unfold count_level. rewrite filter_cons.
  destruct (decide (WordAnalysis.current_level x = l)); cbn [length]; lia.
Qed.

Lemma count_level_nonneg analyses l : 0 <= count_level analyses l.
Proof. unfold count_level. lia. Qed.

Lemma level_counts_fold analyses a b c d :
  foldl (fun counts x => EPS.incr (WordAnalysis.current_level x) counts)
        [ (informal, a); (polite, b); (very_polite, c); (honorific, d) ]
        analyses
  = [ (informal, a + count_level analyses informal);
      (polite, b + count_level analyses polite);
      (very_polite, c + count_level analyses very_polite);
      (honorific, d + count_level analyses honorific) ].
Proof.
  revert a b c d.
  induction analyses as [|x analyses IH]; intros a b c d.
  - unfold count_level. cbn. rewrite !Z.add_0_r. reflexivity.
  - cbn [foldl]. rewrite !count_level_cons.
    destruct (WordAnalysis.current_level x); cbn;
      repeat case_decide; try congruence; rewrite IH;
      rewrite ?Z.add_assoc, ?Z.add_0_r; reflexivity.
Qed.

Lemma level_counts_eq analyses :
  EPS.level_counts analyses
  = [ (informal, count_level analyses informal);
      (polite, count_level analyses polite);
      (very_polite, count_level analyses very_polite);
      (honorific, count_level analyses honorific) ].
Proof. unfold EPS.level_counts, EPS.zero_counts. apply level_counts_fold. Qed.

Lemma breakdown_eq analyses :
  EPS._calculate_level_breakdown analyses =
  if tagged analyses =? 0 then EPS.zero_counts
  else [ (informal, rounded_share analyses informal);
         (polite, rounded_share analyses polite);
         (very_polite, rounded_share analyses very_polite);
         (honorific, rounded_share analyses honorific) ].
Proof.
  unfold EPS._calculate_level_breakdown. rewrite level_counts_eq.
  cbn [map snd foldr].
  replace (count_level analyses informal +
           (count_level analyses polite +
            (count_level analyses very_polite +
             (count_level analyses honorific + 0))))
    with (tagged analyses) by (unfold tagged, register_bearing; lia).
  reflexivity.
Qed.

(** A level that no token carries has ratio 0. *)
Lemma rounded_share_zero analyses l :
  count_level analyses l = 0 -> rounded_share analyses l = 0.
Proof. unfold rounded_share. intros ->. reflexivity. Qed.

Lemma count_level_pos_exists analyses l :
  0 < count_level analyses l ->
  exists i a, analyses !! i = Some a /\ WordAnalysis.current_level a = l.
Proof.
  unfold count_level. intros Hpos.
  destruct (filter (fun a => WordAnalysis.current_level a = l) analyses)
    as [|a rest] eqn:Hf; [cbn in Hpos; lia|].
  assert (a ∈ filter (fun a => WordAnalysis.current_level a = l) analyses)
    as Hin by (rewrite Hf; left).
  apply list_elem_of_filter in Hin as [Hl Hin].
  apply list_elem_of_lookup in Hin as [i Hi]. eauto.
Qed.

Lemma ratio_breakdown analyses l :
  l <> neutral -> l <> mixed ->
  EPS.ratio (EPS._calculate_level_breakdown analyses) l =
  if tagged analyses =? 0 then 0 else rounded_share analyses l.
Proof.
  intros Hn Hm. rewrite breakdown_eq.
  destruct (tagged analyses =? 0); destruct l; try congruence; reflexivity.
Qed.

Lemma breakdown_shape analyses :
  exists x y z h,
    EPS._calculate_level_breakdown analyses =
    [ (informal, x); (polite, y); (very_polite, z); (honorific, h) ].
Proof.
  rewrite breakdown_eq. destruct (tagged analyses =? 0);
    unfold EPS.zero_counts; eauto 6.
Qed.

Lemma ratio_shape x y z h l :
  EPS.ratio [ (informal, x); (polite, y); (very_polite, z); (honorific, h) ] l
  = match l with
    | informal => x
    | polite => y
    | very_polite => z
    | honorific => h
    | _ => 0
    end.
Proof. destruct l; reflexivity. Qed.

Lemma dominant_level_cases x y z h :
  let d := EPS._get_dominant_level
             [ (informal, x); (polite, y); (very_polite, z); (honorific, h) ] in
  (d = mixed <-> mixed_condition x y z) /\
  (d <> mixed ->
   d = if 0 <? z then very_polite
       else if 0 <? y then polite
       else if 0 <? x then informal
       else polite).
Proof.
  unfold EPS._get_dominant_level, mixed_condition.
  rewrite !filter_cons, filter_nil. cbn [fst snd].
  rewrite (decide_False (P := 0 < h /\ honorific <> honorific)) by tauto.
  destruct (Z.lt_ge_cases 0 x), (Z.lt_ge_cases 0 y), (Z.lt_ge_cases 0 z);
    repeat first
      [ rewrite (decide_True (P := 0 < _ /\ _ <> honorific))
          by (split; [assumption|discriminate])
      | rewrite (decide_False (P := 0 < _ /\ _ <> honorific))
          by (intros [? _]; lia) ];
    cbn -[Z.ltb Z.min EPS.ratio]; rewrite ?ratio_shape;
    repeat match goal with
           | |- context [if ?a <? ?b then _ else _] =>
               destruct (Z.ltb_spec a b)
           end;
    (split; [split; intros; first [congruence | lia | exfalso; lia]
            | intros; first [reflexivity | congruence | exfalso; lia]]).
Qed.

(** ** Rounding error of a two-decimal ratio *)

Lemma rne_div_error n d :
  0 <= n -> 0 < d ->
  - d <= 2 * (PyFloat.rne_div n d * d - n) <= d.
Proof.
  intros Hn Hd. unfold PyFloat.rne_div.
  pose proof (Z.div_mod n d ltac:(lia)) as Hdm.
  pose proof (Z.mod_pos_bound n d Hd) as Hr.
  set (q := n / d) in *. set (r := n mod d) in *. cbv zeta.
  destruct (Z.ltb_spec d (2 * r)); cbn [orb].
  - nia.
  - destruct (Z.eqb_spec (2 * r) d); cbn [andb].
    + destruct (Z.odd q); nia.
    + nia.
Qed.

Lemma rne_div_nonneg n d : 0 <= n -> 0 < d -> 0 <= PyFloat.rne_div n d.
Proof.
  intros Hn Hd. unfold PyFloat.rne_div.
  pose proof (Z.div_pos n d Hn Hd).
  destruct (_ || _); lia.
Qed.

Lemma div_expo c t :
  0 < c <= t -> 52 <= PyFloat.expo (PyFloat.div c t).
Proof.
  intros [Hc Hct]. unfold PyFloat.div.
  assert ((c =? 0) = false) as -> by lia.
  pose proof (Z.log2_le_mono c t Hct).
  cbv zeta. destruct (_ <? _); cbn [PyFloat.expo]; lia.
Qed.

Lemma div_mant_error c t :
  0 < c <= t ->
  let x := PyFloat.div c t in
  - t <= 2 * (PyFloat.mant x * t - c * 2 ^ PyFloat.expo x) <= t.
Proof.
  intros [Hc Hct]. unfold PyFloat.div.
  assert ((c =? 0) = false) as -> by lia.
  cbv zeta.
  set (e := if _ <? _ then _ else _).
  cbn [PyFloat.mant PyFloat.expo].
  apply rne_div_error; [|lia].
  apply Z.mul_nonneg_nonneg; [lia|]. apply Z.pow_nonneg. lia.
Qed.

(** The rounded ratio [k] of [c / t] (in hundredths) is within 0.625 of a
    hundredth of the exact quotient: half a hundredth from the decimal
    rounding, the rest bounding the error of the division. *)
Lemma round2_error c t :
  0 <= c <= t -> 0 < t ->
  - (5 * t) <= 8 * (PyFloat.round2 (PyFloat.div c t) * t - 100 * c) <= 5 * t.
Proof.
  intros [Hc Hct] Ht.
  destruct (Z.eq_dec c 0) as [->|Hne].
  - change (PyFloat.round2 (PyFloat.div 0 t)) with 0. lia.
  - assert (0 < c <= t) as Hpos by lia.
    pose proof (div_expo c t Hpos) as He.
    pose proof (div_mant_error c t Hpos) as Hm. cbv zeta in Hm.
    unfold PyFloat.round2.
    set (x := PyFloat.div c t) in *.
    set (m := PyFloat.mant x) in *. set (e := PyFloat.expo x) in *.
    assert (2 ^ 52 <= 2 ^ e) as HP by (apply Z.pow_le_mono_r; lia).
    assert (2 ^ 52 = 4503599627370496) as E52 by reflexivity.
    rewrite E52 in HP. clear E52.
    set (P := 2 ^ e) in *.
    assert (0 <= m) as Hm0.
    { subst m x. unfold PyFloat.div.
      assert ((c =? 0) = false) as -> by lia. cbv zeta.
      cbn [PyFloat.mant]. apply rne_div_nonneg; [|lia].
      apply Z.mul_nonneg_nonneg; [lia|]. apply Z.pow_nonneg. lia. }
    pose proof (rne_div_error (100 * m) P ltac:(lia) ltac:(lia)) as Hk.
    set (k := PyFloat.rne_div (100 * m) P) in *.
    assert ((k * t - 100 * c) * P = t * (k * P - 100 * m) + 100 * (m * t - c * P))
      as HX by ring.
    set (X := k * t - 100 * c) in *.
    set (A := k * P - 100 * m) in *. set (B := m * t - c * P) in *.
    assert (8 * X * P <= 5 * t * P) by nia.
    assert (- (5 * t * P) <= 8 * X * P) by nia.
    split; nia.
Qed.

Lemma round2_sum_bound a b c d :
  0 <= a -> 0 <= b -> 0 <= c -> 0 <= d ->
  let t := a + b + c + d in
  0 < t ->
  98 <= PyFloat.round2 (PyFloat.div a t) + PyFloat.round2 (PyFloat.div b t)
        + PyFloat.round2 (PyFloat.div c t) + PyFloat.round2 (PyFloat.div d t)
     <= 102.
Proof.
  intros Ha Hb Hc Hd t Ht.
  pose proof (round2_error a t ltac:(lia) Ht).
  pose proof (round2_error b t ltac:(lia) Ht).
  pose proof (round2_error c t ltac:(lia) Ht).
  pose proof (round2_error d t ltac:(lia) Ht).
  set (ka := PyFloat.round2 (PyFloat.div a t)) in *.
  set (kb := PyFloat.round2 (PyFloat.div b t)) in *.
  set (kc := PyFloat.round2 (PyFloat.div c t)) in *.
  set (kd := PyFloat.round2 (PyFloat.div d t)) in *.
  assert (- (20 * t) <= 8 * ((ka + kb + kc + kd) - 100) * t <= 20 * t)
    by (subst t; nia).
  split; nia.
Qed.

Lemma tagged_nonneg analyses : 0 <= tagged analyses.
Proof.
  unfold tagged, register_bearing.
  pose proof (count_level_nonneg analyses informal).
  pose proof (count_level_nonneg analyses polite).
  pose proof (count_level_nonneg analyses very_polite).
  pose proof (count_level_nonneg analyses honorific). lia.
Qed.

Lemma dominant_very_polite_token analyses :
  EPS._get_dominant_level (EPS._calculate_level_breakdown analyses)
    = very_polite ->
  exists i a,
    analyses !! i = Some a /\ WordAnalysis.current_level a = very_polite.
Proof.
  intros Hd.
  pose proof (ratio_breakdown analyses very_polite) as Hr.
  destruct (breakdown_shape analyses) as (x & y & z & h & Hb).
  rewrite Hb in Hd, Hr. rewrite ratio_shape in Hr.
  destruct (dominant_level_cases x y z h) as [_ Hcases]. cbv zeta in Hcases.
  rewrite Hd in Hcases. specialize (Hcases ltac:(discriminate)).
  assert (0 < z) as Hz.
  { destruct (Z.ltb_spec 0 z); [assumption|].
    destruct (0 <? y); [discriminate|]. destruct (0 <? x); discriminate. }
  specialize (Hr ltac:(discriminate) ltac:(discriminate)).
  apply count_level_pos_exists.
  pose proof (count_level_nonneg analyses very_polite).
  destruct (Z.eq_dec (count_level analyses very_polite) 0) as [H0|]; [|lia].
  rewrite (rounded_share_zero _ _ H0) in Hr.
  destruct (tagged analyses =? 0); lia.
Qed.

(** C2 (amended).  In the sentence-level service a text whose honorific
    weight sum is at least 15 has dominant register VeryPolite, whatever the
    sentence endings.  The word-level service has no such override: it
    reports VeryPolite only when some token was itself classified
    VeryPolite. *)
Theorem C2_honorific_override lower isword isspace text role target_age
    user_age :
  15 <= honorific_weight text ->
  PS.level (PS.analyze lower isspace text role target_age user_age)
    = very_polite /\
  (let res := EPS.analyze lower isword isspace text role target_age user_age in
   EnhancedPolitenessResult.level res = very_polite ->
   exists i a,
     EnhancedPolitenessResult.word_analysis res !! i = Some a /\
     WordAnalysis.current_level a = very_polite).
Proof.
  intros Hw. split.
  - rewrite analyze_level, analyze_honorific_score.
    unfold PS._get_dominant_level.
    assert ((15 <=? honorific_weight text) = true) as -> by lia. reflexivity.
  - cbv zeta. unfold EPS.analyze.
    cbn [EnhancedPolitenessResult.level EnhancedPolitenessResult.word_analysis].
    apply dominant_very_polite_token.
Qed.

Lemma C2_honorific_override_witness :
  15 <= honorific_weight text_two_honorifics /\
  PS.level (PS.analyze ascii_lower py_isspace text_two_honorifics
              (Some (str "professor")) None 22) = very_polite.
Proof.
  assert (15 <= honorific_weight text_two_honorifics) as Hw
    by (vm_compute; discriminate).
  split; [exact Hw|].
  exact (proj1 (C2_honorific_override ascii_lower basic_isword py_isspace
                  text_two_honorifics (Some (str "professor")) None 22 Hw)).
Defined.

(** C2 as stated fails on the word-level service: two honorific verbs of
    weight 10 each and no ending marker give the default Polite. *)
Lemma C2_counterexample :
  15 <= honorific_weight text_two_honorifics /\
  EnhancedPolitenessResult.level
    (EPS.analyze ascii_lower basic_isword py_isspace text_two_honorifics
       (Some (str "professor")) None 22) <> very_polite.
Proof. split; vm_compute; discriminate. Qed.

(** C3 (amended).  The word-level service reports Mixed exactly when at
    least two of the three main registers have a positive ratio and every
    main register with a positive ratio exceeds 0.2; a register whose ratio
    is positive but at most 0.2 prevents Mixed even if two others exceed
    0.2.  The ratios are the two-decimal roundings of the counts over all
    tokens tagged informal, polite, very_polite or honorific, so a register
    whose share rounds to 0.00 counts as absent. *)
Theorem C3_mixed_detection lower isword isspace text role target_age
    user_age :
  let res := EPS.analyze lower isword isspace text role target_age user_age in
  let analyses := EnhancedPolitenessResult.word_analysis res in
  let r := EPS.ratio (EnhancedPolitenessResult.level_breakdown res) in
  (EnhancedPolitenessResult.level res = mixed <->
   mixed_condition (r informal) (r polite) (r very_polite)) /\
  (forall l, is_main l = true ->
     r l = if tagged analyses =? 0 then 0 else rounded_share analyses l).
Proof.
  cbv zeta. unfold EPS.analyze.
  cbn [EnhancedPolitenessResult.level EnhancedPolitenessResult.word_analysis
       EnhancedPolitenessResult.level_breakdown].
  set (analyses := EPS._analyze_words _ _ _ _). split.
  - destruct (breakdown_shape analyses) as (x & y & z & h & Hb).
    rewrite Hb, !ratio_shape. apply dominant_level_cases.
  - intros l Hl. apply ratio_breakdown; destruct l; discriminate.
Qed.

(** C3 as stated fails: with two informal, two polite and one very polite
    token, informal and polite each hold 40% of the register-bearing tokens,
    yet the dominant register is VeryPolite, not Mixed. *)
Lemma C3_counterexample :
  let res := EPS.analyze ascii_lower basic_isword py_isspace
               text_three_registers (Some (str "friend")) None 22 in
  two_or_more_above_20pct (EnhancedPolitenessResult.word_analysis res) = true
  /\ EnhancedPolitenessResult.level res <> mixed.
Proof. split; vm_compute; discriminate || reflexivity. Qed.

(** C8 (amended).  The four ratios (informal, polite, very_polite and
    honorific) share one denominator, the number of tokens tagged with any
    of these four levels; each is the count over that total rounded to two
    decimals, and together the four sum to 1 up to the rounding (between
    0.98 and 1.02) whenever such a token exists; otherwise all are 0. *)
Theorem C8_ratio_sum lower isword isspace text role target_age user_age :
  let res := EPS.analyze lower isword isspace text role target_age user_age in
  let analyses := EnhancedPolitenessResult.word_analysis res in
  let r := EPS.ratio (EnhancedPolitenessResult.level_breakdown res) in
  (tagged analyses = 0 ->
   r informal = 0 /\ r polite = 0 /\ r very_polite = 0 /\ r honorific = 0) /\
  (0 < tagged analyses ->
   r informal = rounded_share analyses informal /\
   r polite = rounded_share analyses polite /\
   r very_polite = rounded_share analyses very_polite /\
   r honorific = rounded_share analyses honorific /\
   98 <= r informal + r polite + r very_polite + r honorific <= 102).
Proof.
  cbv zeta. unfold EPS.analyze.
  cbn [EnhancedPolitenessResult.level EnhancedPolitenessResult.word_analysis
       EnhancedPolitenessResult.level_breakdown].
  set (analyses := EPS._analyze_words _ _ _ _).
  rewrite !ratio_breakdown by discriminate. split.
  - intros ->. cbn. repeat split; reflexivity.
  - intros Ht. assert ((tagged analyses =? 0) = false) as -> by lia.
    repeat (split; [reflexivity|]).
    unfold rounded_share.
    pose proof (count_level_nonneg analyses informal).
    pose proof (count_level_nonneg analyses polite).
    pose proof (count_level_nonneg analyses very_polite).
    pose proof (count_level_nonneg analyses honorific).
    apply round2_sum_bound; assumption.
Qed.

(** C8 as stated fails: one informal and one honorific token give an
    informal ratio of 0.5, so the three main ratios sum to 0.5, not 1. *)
Lemma C8_counterexample :
  let res := EPS.analyze ascii_lower basic_isword py_isspace
               text_informal_honorific (Some (str "friend")) None 22 in
  let r := EPS.ratio (EnhancedPolitenessResult.level_breakdown res) in
  1 <= register_bearing (EnhancedPolitenessResult.word_analysis res) /\
  r informal + r polite + r very_polite = 50.
Proof. split; vm_compute; discriminate || reflexivity. Qed.

(** ** Token analyses *)

Lemma analyze_words_go_inv isspace text expected words position :
  Forall (token_inv expected)
         (EPS.analyze_words_go isspace text expected words position).
Proof.
  revert position.
  induction words as [|word words IH]; intros position; cbn [EPS.analyze_words_go].
  - constructor.
  - destruct (strip isspace word) as [|c r] eqn:Hclean; [apply IH|].
    set (lvl := EPS._detect_word_level (c :: r)).
    destruct (negb (EPS._is_word_correct lvl expected) &&
              negb (bool_decide (lvl = neutral))) eqn:Hbad.
    + constructor; [|apply IH].
      apply andb_true_iff in Hbad as [Hc _].
      apply negb_true_iff in Hc.
      unfold token_inv. cbn. rewrite Hc. repeat split; reflexivity.
    + constructor; [|apply IH].
      unfold token_inv. cbn.
      destruct (EPS._is_word_correct lvl expected) eqn:Hc;
        [repeat split; reflexivity|].
      cbn in Hbad. apply negb_false_iff in Hbad.
      apply bool_decide_eq_true in Hbad.
      rewrite Hbad in Hc. discriminate.
Qed.

Lemma analyze_words_inv isword isspace text expected :
  Forall (token_inv expected) (EPS._analyze_words isword isspace text expected).
Proof. apply analyze_words_go_inv. Qed.

Lemma expected_level_main lower role target_age user_age :
  is_main (EPS._get_expected_level lower role target_age user_age) = true.
Proof.
  unfold EPS._get_expected_level.
  destruct role as [[|c r]|]; try reflexivity.
  destruct (3 <=? _); [reflexivity|]. destruct (2 <=? _); reflexivity.
Qed.

Lemma is_word_correct_rank current expected :
  is_main current = true -> is_main expected = true ->
  EPS._is_word_correct current expected = true <->
  (rank expected <= rank current)%nat.
Proof.
  destruct current, expected; try discriminate; intros _ _; cbn;
    split; intros H; first [reflexivity | lia | discriminate].
Qed.

(** C4.  Every token analysis the engine produces is marked correct when
    its detected register is Neutral or Honorific; when the detected
    register is one of the three main registers it is marked correct if and
    only if its rank is at least the rank of the expected register
    (Informal < Polite < VeryPolite). *)
Theorem C4_is_correct lower isword isspace text role target_age user_age i a :
  let res := EPS.analyze lower isword isspace text role target_age user_age in
  EnhancedPolitenessResult.word_analysis res !! i = Some a ->
  exists expected,
    EnhancedPolitenessResult.recommended_level res = Some expected /\
    is_main expected = true /\
    (WordAnalysis.current_level a = neutral \/
     WordAnalysis.current_level a = honorific ->
     WordAnalysis.is_correct a = true) /\
    (is_main (WordAnalysis.current_level a) = true ->
     WordAnalysis.expected_level a = Some expected /\
     (WordAnalysis.is_correct a = true <->
      (rank expected <= rank (WordAnalysis.current_level a))%nat)).
Proof.
  cbv zeta. unfold EPS.analyze.
  cbn [EnhancedPolitenessResult.word_analysis
       EnhancedPolitenessResult.recommended_level].
  set (expected := EPS._get_expected_level lower role target_age user_age).
  intros Hi. exists expected.
  pose proof (expected_level_main lower role target_age user_age) as Hmain.
  fold expected in Hmain.
  pose proof (analyze_words_inv isword isspace text expected) as Hinv.
  rewrite Forall_lookup in Hinv.
  destruct (Hinv i a Hi) as (Hc & _ & _ & _ & He).
  split; [reflexivity|]. split; [exact Hmain|]. split.
  - intros [Hl|Hl]; rewrite Hc, Hl; reflexivity.
  - intros Hl. split.
    + rewrite He. rewrite bool_decide_eq_false_2; [reflexivity|].
      intros Hn. rewrite Hn in Hl. discriminate.
    + rewrite Hc. apply is_word_correct_rank; assumption.
Qed.

Lemma C4_is_correct_witness :
  let res := EPS.analyze ascii_lower basic_isword py_isspace text_professor
               (Some (str "professor")) (Some 55) 22 in
  EnhancedPolitenessResult.word_analysis res !! 2%nat = Some token_isseoyo /\
  exists expected,
    EnhancedPolitenessResult.recommended_level res = Some expected /\
    is_main expected = true /\
    (WordAnalysis.current_level token_isseoyo = neutral \/
     WordAnalysis.current_level token_isseoyo = honorific ->
     WordAnalysis.is_correct token_isseoyo = true) /\
    (is_main (WordAnalysis.current_level token_isseoyo) = true ->
     WordAnalysis.expected_level token_isseoyo = Some expected /\
     (WordAnalysis.is_correct token_isseoyo = true <->
      (rank expected <= rank (WordAnalysis.current_level token_isseoyo))%nat)).
Proof.
  split; [vm_compute; reflexivity|].
  apply (C4_is_correct ascii_lower basic_isword py_isspace text_professor
           (Some (str "professor")) (Some 55) 22 2%nat token_isseoyo).
  vm_compute. reflexivity.
Defined.

(** ** Correction synthesizer *)

Lemma get_suggestion_table word current expected :
  EPS._get_suggestion word current expected
  = table_entry current expected word.
Proof. destruct current, expected; reflexivity. Qed.

Lemma conversion_values_nonempty :
  Forall (fun p : pystr * pystr => p.2 <> [])
         (INFORMAL_TO_POLITE_items ++ POLITE_TO_FORMAL_items ++
          INFORMAL_TO_FORMAL_items).
Proof. apply (bool_decide_unpack _). vm_compute. exact I. Qed.

Lemma table_entry_nonempty current expected word v :
  table_entry current expected word = Some v -> v <> [].
Proof.
  pose proof conversion_values_nonempty as Hall.
  rewrite !Forall_app in Hall. destruct Hall as (H1 & H2 & H3).
  rewrite Forall_forall in H1, H2, H3.
  unfold table_entry, conversion_table.
  destruct current, expected; cbv beta iota; try discriminate; intros Hl;
    apply elem_of_list_to_map_2 in Hl;
    [apply (H1 _ Hl) | apply (H3 _ Hl) | apply (H2 _ Hl)].
Qed.

Lemma omap_ext_Forall {A B : Type} (f g : A -> option B) (l : list A) :
  Forall (fun x => f x = g x) l -> omap f l = omap g l.
Proof.
  induction 1 as [|x l Hx _ IH]; csimpl; [reflexivity|].
  rewrite Hx, IH. reflexivity.
Qed.

Lemma generate_corrections_table text analyses expected :
  Forall (token_inv expected) analyses ->
  EPS._generate_corrections text analyses expected
  = omap (table_correction expected) analyses.
Proof.
  intros Hinv. unfold EPS._generate_corrections.
  apply omap_ext_Forall. eapply Forall_impl; [exact Hinv|].
  intros a (Hc & Hs & _). cbv beta.
  unfold table_correction. rewrite Hs, get_suggestion_table.
  destruct (WordAnalysis.is_correct a); [reflexivity|].
  destruct (table_entry _ _ _) as [v|] eqn:Hv; [|reflexivity].
  pose proof (table_entry_nonempty _ _ _ _ Hv).
  destruct v; [congruence|].
  destruct (EPS._get_correction_reason _ _). reflexivity.
Qed.

(** C5.  The corrections of an analysis are exactly, in token order, the
    table hits of its incorrect tokens: a token yields a correction only if
    its surface text is a key of the conversion table selected by its
    (detected, expected) pair, a miss contributes nothing, and every
    corrected form is the table's value for that key. *)
Theorem C5_corrections_from_tables lower isword isspace text role target_age
    user_age :
  let res := EPS.analyze lower isword isspace text role target_age user_age in
  let expected := EPS._get_expected_level lower role target_age user_age in
  EnhancedPolitenessResult.corrections res
    = omap (table_correction expected)
           (EnhancedPolitenessResult.word_analysis res) /\
  (forall c, c ∈ EnhancedPolitenessResult.corrections res ->
     exists a tbl,
       a ∈ EnhancedPolitenessResult.word_analysis res /\
       WordAnalysis.is_correct a = false /\
       Correction.original c = WordAnalysis.word a /\
       Correction.position_start c = WordAnalysis.position_start a /\
       Correction.position_end c = WordAnalysis.position_end a /\
       conversion_table (WordAnalysis.current_level a) expected = Some tbl /\
       tbl !! WordAnalysis.word a = Some (Correction.corrected c)) /\
  (forall a, a ∈ EnhancedPolitenessResult.word_analysis res ->
     table_entry (WordAnalysis.current_level a) expected (WordAnalysis.word a)
       = None ->
     table_correction expected a = None).
Proof.
  cbv zeta. unfold EPS.analyze.
  cbn [EnhancedPolitenessResult.corrections
       EnhancedPolitenessResult.word_analysis].
  set (expected := EPS._get_expected_level lower role target_age user_age).
  set (analyses := EPS._analyze_words isword isspace text expected).
  pose proof (generate_corrections_table text analyses expected
                (analyze_words_inv isword isspace text expected)) as Heq.
  split; [exact Heq|]. split.
  - intros c Hc. rewrite Heq in Hc.
    apply list_elem_of_omap in Hc as (a & Ha & Hta).
    unfold table_correction, table_entry in Hta.
    destruct (WordAnalysis.is_correct a) eqn:Hcor; [discriminate|].
    destruct (conversion_table _ _) as [tbl|] eqn:Htbl; [|discriminate].
    destruct (tbl !! WordAnalysis.word a) as [v|] eqn:Hv; [|discriminate].
    injection Hta as <-. exists a, tbl.
    cbn [Correction.original Correction.corrected Correction.position_start
         Correction.position_end].
    repeat split; assumption || reflexivity.
  - intros a _ Hmiss. unfold table_correction. rewrite Hmiss.
    destruct (WordAnalysis.is_correct a); reflexivity.
Qed.

(** ** Error categorizer *)

Section SortByKeyFacts.
Context {A : Type} (key : A -> Z).






Lemma insert_by_key_perm x l : insert_by_key key x l ≡ₚ x :: l.
Proof.
  induction l as [|y l IH]; cbn; [reflexivity|].
  destruct (key x <=? key y); [reflexivity|].
  rewrite IH. apply Permutation_swap.
Qed.

Lemma sort_by_key_perm l : sort_by_key key l ≡ₚ l.
Proof.
  induction l as [|x l IH]; cbn; [reflexivity|].
  rewrite insert_by_key_perm, IH. reflexivity.
Qed.

End SortByKeyFacts.

Lemma add_example_keys k ex d :
  map fst (EPS.add_example k ex d)
  = if bool_decide (k ∈ map fst d) then map fst d else map fst d ++ [k].
Proof.
  induction d as [|[k' exs] d IH]; cbn [EPS.add_example map fst].
  - rewrite bool_decide_eq_false_2 by apply not_elem_of_nil. reflexivity.
  - destruct (decide (k = k')) as [->|Hne]; cbn [map fst].
    + rewrite bool_decide_eq_true_2 by left. reflexivity.
    + rewrite IH. repeat case_bool_decide; try reflexivity; exfalso;
        match goal with
        | H : ?k ∈ ?x :: ?l, Hn : ¬ ?k ∈ ?l |- _ =>
            apply elem_of_cons in H as [?|?]; [congruence|contradiction]
        | H : ¬ ?k ∈ ?x :: ?l, Hi : ?k ∈ ?l |- _ => apply H; right; exact Hi
        end.
Qed.

Lemma error_counts_keys_fold analyses d :
  map fst
    (foldl
       (fun d a =>
          match WordAnalysis.error_type a with
          | Some (c :: r) => EPS.add_example (c :: r) (EPS.example_of a) d
          | _ => d
          end) d analyses)
  = foldl (fun seen k => if bool_decide (k ∈ seen) then seen else seen ++ [k])
          (map fst d) (error_types analyses).
Proof.
  revert d. induction analyses as [|a analyses IH]; intros d; [reflexivity|].
  cbn [foldl]. rewrite IH. unfold error_types. csimpl.
  destruct (WordAnalysis.error_type a) as [[|c r]|]; cbn [foldl];
    try reflexivity.
  rewrite add_example_keys. reflexivity.
Qed.

(** Summaries are created in the order in which their error types first
    occur among the tokens. *)
Lemma error_counts_keys analyses :
  map fst (EPS.error_counts analyses) = first_occurrences (error_types analyses).
Proof. apply error_counts_keys_fold. Qed.







(** The word-level detector only returns informal, polite, very_polite,
    honorific or neutral. *)
Lemma word_levels_not_mixed :
  map_Forall (fun _ lvl => lvl <> mixed) EPS._word_levels.
Proof. apply (bool_decide_unpack _). vm_compute. exact I. Qed.

Lemma pattern_levels_not_mixed :
  Forall (fun e : Level * list Pattern => e.1 <> mixed) EPS._compiled_patterns.
Proof. apply (bool_decide_unpack _). vm_compute. exact I. Qed.

Lemma detect_word_level_not_mixed word : EPS._detect_word_level word <> mixed.
Proof.
  unfold EPS._detect_word_level.
  destruct (EPS._word_levels !! word) as [lvl|] eqn:Hl.
  - exact (word_levels_not_mixed _ _ Hl).
  - destruct (list_find _ EPS._compiled_patterns) as [[i [lvl ps]]|] eqn:Hf.
    + apply list_find_Some in Hf as (Hi & _ & _).
      pose proof pattern_levels_not_mixed as Hall.
      rewrite Forall_lookup in Hall. exact (Hall _ _ Hi).
    + destruct (existsb _ _); discriminate.
Qed.

Lemma token_error_type expected a :
  token_inv expected a ->
  WordAnalysis.error_type a = None \/
  WordAnalysis.error_type a = Some (str "ending_mismatch").
Proof.
  intros (Hc & _ & He & Hd & _).
  pose proof (detect_word_level_not_mixed (WordAnalysis.word a)) as Hm.
  rewrite <- Hd in Hm. rewrite He, Hc.
  unfold EPS._is_word_correct, EPS._get_error_type.
  destruct (WordAnalysis.current_level a).
  - destruct (_ <=? _); [left|right]; reflexivity.
  - destruct (_ <=? _); [left|right]; reflexivity.
  - destruct (_ <=? _); [left|right]; reflexivity.
  - left; reflexivity.
  - left; reflexivity.
  - exfalso. apply Hm. reflexivity.
Qed.

Lemma engine_error_types expected analyses :
  Forall (token_inv expected) analyses ->
  Forall (fun k => k = str "ending_mismatch") (error_types analyses).
Proof.
  induction 1 as [|a analyses Ha _ IH]; [constructor|].
  unfold error_types in *. csimpl.
  destruct (token_error_type _ _ Ha) as [-> | ->]; [exact IH|].
  constructor; [reflexivity|exact IH].
Qed.

Lemma first_occurrences_const (k : pystr) (ks seen : list pystr) :
  Forall (fun x => x = k) ks ->
  seen = [] \/ seen = [k] ->
  let out :=
    foldl (fun seen k => if bool_decide (k ∈ seen) then seen else seen ++ [k])
          seen ks in
  out = [] \/ out = [k].
Proof.
  intros Hks. revert seen.
  induction Hks as [|x ks -> _ IH]; intros seen Hseen; [exact Hseen|].
  cbn [foldl]. apply IH.
  destruct Hseen as [-> | ->].
  - rewrite bool_decide_eq_false_2 by apply not_elem_of_nil. right. reflexivity.
  - rewrite bool_decide_eq_true_2 by left. right. reflexivity.
Qed.

Lemma engine_errors_at_most_one isword isspace text expected :
  (length (EPS._categorize_errors
             (EPS._analyze_words isword isspace text expected)) <= 1)%nat.
Proof.
  unfold EPS._categorize_errors.
  rewrite (Permutation_length (sort_by_key_perm _ _)), length_map.
  rewrite <- (length_map fst), error_counts_keys.
  pose proof (engine_error_types expected _
                (analyze_words_inv isword isspace text expected)) as Hty.
  destruct (first_occurrences_const _ _ [] Hty ltac:(left; reflexivity))
    as [H|H]; unfold first_occurrences; rewrite H; cbn; lia.
Qed.




(** ** Scorer *)

(** The scorer ranks a Mixed dominant register like Polite: "mixed" is not
    a key of [level_order], so the default rank 1 applies. *)
Lemma score_mixed_as_polite expected breakdown error_count :
  EPS._calculate_score mixed expected breakdown error_count
  = EPS._calculate_score polite expected breakdown error_count.
Proof. reflexivity. Qed.

Lemma appropriateness_mixed expected :
  EPS._check_appropriateness mixed expected = false.
Proof. reflexivity. Qed.

(** C6 (the code departs from the claim).  For the text "안녕하세요. 뭐해?"
    addressed to a friend the dominant register is Mixed and the expected
    one Informal; the appropriateness check rejects Mixed, but the scorer
    ranks Mixed as Polite, grants the +30 match bonus and returns 80.  The
    same holds whenever the expected register is Informal or Polite. *)
Theorem C6_mixed_match_bonus :
  let res := EPS.analyze ascii_lower basic_isword py_isspace text_mixed
               (Some (str "friend")) None 22 in
  EnhancedPolitenessResult.level res = mixed /\
  EnhancedPolitenessResult.recommended_level res = Some informal /\
  EnhancedPolitenessResult.is_appropriate res = false /\
  EnhancedPolitenessResult.level_breakdown res
    = [ (informal, 50); (polite, 50); (very_polite, 0); (honorific, 0) ] /\
  EnhancedPolitenessResult.errors res = [] /\
  EnhancedPolitenessResult.score res = 50 + 30 /\
  (forall breakdown error_count,
     EPS._calculate_score mixed informal breakdown error_count
       = EPS._calculate_score very_polite informal breakdown error_count /\
     EPS._calculate_score mixed polite breakdown error_count
       = EPS._calculate_score very_polite polite breakdown error_count).
Proof.
  cbv zeta. repeat split; try (vm_compute; reflexivity).
Qed.

(** * Further properties of the code *)

(** ** Tokenizer *)

Lemma concat_flush cur : concat (EPS.flush cur) = rev cur.
Proof. destruct cur; cbn [EPS.flush concat]; [reflexivity|apply app_nil_r]. Qed.

Lemma tokenize_go_concat isword isspace text cur :
  concat (EPS.tokenize_go isword isspace text cur)
  = rev cur ++ filter (fun c => kept isword isspace c = true) text.
Proof.
  revert cur. induction text as [|c r IH]; intros cur; cbn [EPS.tokenize_go].
  - rewrite concat_flush, filter_nil, app_nil_r. reflexivity.
  - rewrite filter_cons.
    destruct (isword c || is_hangul_syllable c) eqn:Htok.
    + rewrite IH. cbn [rev].
      rewrite decide_True by (unfold kept, token_char; rewrite Htok;
                              reflexivity).
      rewrite <- app_assoc. reflexivity.
    + assert (isword c = false) as Hw
        by (destruct (isword c); [discriminate|reflexivity]).
      rewrite Hw. cbn [andb negb]. rewrite andb_true_r.
      destruct (isspace c) eqn:Hs; cbn [negb].
      * rewrite decide_False
          by (unfold kept, token_char; rewrite Htok, Hs; discriminate).
        rewrite concat_app, concat_flush, IH. reflexivity.
      * rewrite decide_True
          by (unfold kept, token_char; rewrite Htok, Hs; reflexivity).
        rewrite concat_app, concat_flush. cbn [concat]. rewrite IH.
        reflexivity.
Qed.

(** X1.  The tokens of a text, concatenated, are the text without its
    white space: the tokenizer drops exactly the white-space characters
    (other than word characters) and keeps every other character, in
    order. *)
Theorem X1_tokenize_concat isword isspace text :
  concat (EPS._tokenize isword isspace text)
  = filter (fun c => kept isword isspace c = true) text.
Proof. unfold EPS._tokenize. rewrite tokenize_go_concat. reflexivity. Qed.

Lemma flush_shape isword isspace cur :
  Forall (fun c => token_char isword c = true) cur ->
  Forall (token_shape isword isspace) (EPS.flush cur).
Proof.
  intros Hcur. destruct cur as [|c cur]; [constructor|].
  constructor; [|constructor]. left. split.
  - intros Hnil. apply (f_equal (@length N)) in Hnil.
    rewrite length_rev in Hnil. discriminate.
  - apply Forall_rev. exact Hcur.
Qed.

Lemma tokenize_go_shape isword isspace text cur :
  Forall (fun c => token_char isword c = true) cur ->
  Forall (token_shape isword isspace)
         (EPS.tokenize_go isword isspace text cur).
Proof.
  revert cur. induction text as [|c r IH]; intros cur Hcur;
    cbn [EPS.tokenize_go].
  - apply flush_shape. exact Hcur.
  - destruct (isword c || is_hangul_syllable c) eqn:Htok.
    + apply IH. constructor; assumption.
    + destruct (negb (isspace c) && negb (isword c)) eqn:Hp.
      * apply Forall_app. split; [apply flush_shape; exact Hcur|].
        constructor; [|apply IH; constructor].
        right. exists c. apply andb_true_iff in Hp as [Hs _].
        apply negb_true_iff in Hs. repeat split; assumption.
      * apply Forall_app. split; [apply flush_shape; exact Hcur|].
        apply IH. constructor.
Qed.

(** X2.  Every token is non-empty and is either a run of word characters
    ([\w] or Hangul syllables) or a single character that is neither a word
    character nor white space. *)
Theorem X2_token_shape isword isspace text :
  Forall (token_shape isword isspace) (EPS._tokenize isword isspace text).
Proof. apply tokenize_go_shape. constructor. Qed.

(** ** Word analyses and their spans *)

Lemma lstrip_nonspace isspace s :
  Forall (fun c => isspace c = false) s -> lstrip isspace s = s.
Proof. destruct 1 as [|c s Hc _]; cbn; [reflexivity|]. rewrite Hc. reflexivity. Qed.

Lemma strip_nonspace isspace s :
  Forall (fun c => isspace c = false) s -> strip isspace s = s.
Proof.
  intros Hs. unfold strip. rewrite (lstrip_nonspace _ _ Hs).
  rewrite lstrip_nonspace by (apply Forall_rev; exact Hs).
  apply rev_involutive.
Qed.

Lemma starts_with_app t s : starts_with t (t ++ s) = true.
Proof.
  induction t as [|c t IH]; [reflexivity|]. cbn.
  rewrite N.eqb_refl, IH. reflexivity.
Qed.

Lemma find_from_unfold sub text idx :
  find_from sub text idx
  = if starts_with sub text then idx
    else match text with
         | [] => -1
         | _ :: text' => find_from sub text' (idx + 1)
         end.
Proof. destruct text; reflexivity. Qed.

Lemma find_from_gap isspace gap t s idx :
  Forall (fun c => isspace c = true) gap ->
  t <> [] ->
  Forall (fun c => isspace c = false) t ->
  find_from t (gap ++ t ++ s) idx = idx + Z.of_nat (length gap).
Proof.
  intros Hgap Hne Ht. revert idx.
  induction Hgap as [|g gap Hg _ IH]; intros idx.
  - cbn [app length]. rewrite find_from_unfold, starts_with_app. lia.
  - rewrite find_from_unfold.
    destruct t as [|c t]; [congruence|].
    cbn [app starts_with].
    assert ((c =? g)%N = false) as ->.
    { apply N.eqb_neq. intros ->. inversion Ht; subst. congruence. }
    cbn [andb]. rewrite IH. cbn [length]. lia.
Qed.

Lemma find_after_prefix isspace pre gap t s :
  Forall (fun c => isspace c = true) gap ->
  t <> [] ->
  Forall (fun c => isspace c = false) t ->
  find (pre ++ gap ++ t ++ s) t (Z.of_nat (length pre))
  = Z.of_nat (length pre) + Z.of_nat (length gap).
Proof.
  intros Hgap Hne Ht. unfold find.
  assert ((Z.of_nat (length pre) <? 0) = false) as ->
    by (apply Z.ltb_ge; lia).
  rewrite length_app.
  assert ((Z.of_nat (length pre + length (gap ++ t ++ s))
           <? Z.of_nat (length pre)) = false) as ->
    by (apply Z.ltb_ge; lia).
  rewrite Nat2Z.id, drop_app_length.
  apply (find_from_gap isspace); assumption.
Qed.

Lemma layout_gap isspace c s toks :
  isspace c = true -> layout isspace s toks -> layout isspace (c :: s) toks.
Proof.
  intros Hc Hl. destruct Hl as [s|gap t s ts Hgap Hne Ht Hl].
  - constructor.
  - change (c :: gap ++ t ++ s) with ((c :: gap) ++ t ++ s).
    constructor; [constructor|..]; assumption.
Qed.

Lemma layout_flush isspace isword cur s toks :
  word_chars_not_space isword isspace ->
  Forall (fun c => token_char isword c = true) cur ->
  layout isspace s toks ->
  layout isspace (rev cur ++ s) (EPS.flush cur ++ toks).
Proof.
  intros Hok Hcur Hl. destruct cur as [|c cur]; [exact Hl|].
  cbn [EPS.flush app].
  apply (layout_cons isspace [] (rev (c :: cur)) s toks).
  - constructor.
  - intros Hnil. apply (f_equal (@length N)) in Hnil.
    rewrite length_rev in Hnil. discriminate.
  - apply Forall_rev. eapply Forall_impl; [exact Hcur|]. exact Hok.
  - exact Hl.
Qed.

Lemma tokenize_go_layout isword isspace text cur :
  word_chars_not_space isword isspace ->
  Forall (fun c => token_char isword c = true) cur ->
  layout isspace (rev cur ++ text)
         (EPS.tokenize_go isword isspace text cur).
Proof.
  intros Hok. revert cur.
  induction text as [|c r IH]; intros cur Hcur; cbn [EPS.tokenize_go].
  - rewrite <- (app_nil_r (EPS.flush cur)).
    apply (layout_flush isspace isword); [assumption..|constructor].
  - destruct (isword c || is_hangul_syllable c) eqn:Htok.
    + specialize (IH (c :: cur) ltac:(constructor; assumption)).
      cbn [rev] in IH. rewrite <- app_assoc in IH. exact IH.
    + destruct (negb (isspace c) && negb (isword c)) eqn:Hp.
      * apply (layout_flush isspace isword); [assumption..|].
        apply andb_true_iff in Hp as [Hs _]. apply negb_true_iff in Hs.
        apply (layout_cons isspace [] [c] r); [constructor|discriminate| |].
        -- repeat constructor. exact Hs.
        -- apply (IH []). constructor.
      * apply (layout_flush isspace isword); [assumption..|].
        apply layout_gap; [|apply (IH []); constructor].
        assert (isword c = false) as Hw
          by (destruct (isword c); [discriminate|reflexivity]).
        rewrite Hw in Hp. cbn in Hp. rewrite andb_true_r in Hp.
        apply negb_false_iff in Hp. exact Hp.
Qed.

Lemma analyze_words_go_layout isspace expected s toks :
  layout isspace s toks ->
  forall pre,
    let text := pre ++ s in
    let out := EPS.analyze_words_go isspace text expected toks
                 (Z.of_nat (length pre)) in
    map WordAnalysis.word out = toks /\
    spans_from text (Z.of_nat (length pre)) out.
Proof.
  induction 1 as [s|gap t s ts Hgap Hne Ht Hl IH]; intros pre; cbv zeta.
  - split; [reflexivity|exact I].
  - destruct t as [|c t']; [congruence|].
    cbn [EPS.analyze_words_go].
    rewrite (strip_nonspace _ _ Ht). cbv beta iota.
    set (w := c :: t') in *.
    rewrite (find_after_prefix isspace) by assumption.
    specialize (IH (pre ++ gap ++ w)). cbv zeta in IH.
    rewrite <- !app_assoc in IH.
    replace (Z.of_nat (length pre) + Z.of_nat (length gap)
             + Z.of_nat (length w))
      with (Z.of_nat (length (pre ++ gap ++ w)))
      by (rewrite !length_app; lia).
    destruct IH as [IHw IHs].
    destruct (negb _ && negb _);
      (split; [cbn [map WordAnalysis.word]; rewrite IHw; reflexivity|]);
      cbn [spans_from WordAnalysis.position_start WordAnalysis.position_end
           WordAnalysis.word];
      (split; [lia|]); (split; [rewrite !length_app; lia|]);
      (split; [rewrite !length_app; lia|]);
      (split; [|exact IHs]);
      unfold slice;
      replace (Z.to_nat (Z.of_nat (length (pre ++ gap ++ w))
                         - (Z.of_nat (length pre) + Z.of_nat (length gap))))
        with (length w) by (rewrite !length_app; lia);
      replace (Z.to_nat (Z.of_nat (length pre) + Z.of_nat (length gap)))
        with (length (pre ++ gap)) by (rewrite !length_app; lia);
      rewrite (app_assoc pre gap), drop_app_length, take_app_length;
      reflexivity.
Qed.

Lemma spans_from_Forall text pos l :
  spans_from text pos l ->
  Forall (fun a =>
            pos <= WordAnalysis.position_start a /\
            WordAnalysis.position_end a
              = WordAnalysis.position_start a
                + Z.of_nat (length (WordAnalysis.word a)) /\
            WordAnalysis.position_end a <= Z.of_nat (length text) /\
            slice text (WordAnalysis.position_start a)
                  (WordAnalysis.position_end a) = WordAnalysis.word a) l.
Proof.
  revert pos. induction l as [|a l IH]; intros pos; [constructor|].
  cbn [spans_from]. intros (H1 & H2 & H3 & H4 & Hl).
  constructor; [repeat split; assumption|].
  eapply Forall_impl; [exact (IH _ Hl)|].
  cbn. intros b (? & ? & ? & ?). repeat split; try assumption. lia.
Qed.

Lemma spans_from_ordered text pos l (i j : nat) a b :
  spans_from text pos l ->
  l !! i = Some a -> l !! j = Some b -> (i < j)%nat ->
  WordAnalysis.position_end a <= WordAnalysis.position_start b.
Proof.
  revert pos i j. induction l as [|x l IH]; intros pos i j Hs Hi Hj Hij.
  - discriminate.
  - cbn [spans_from] in Hs. destruct Hs as (_ & _ & _ & _ & Hl).
    destruct j as [|j]; [lia|]. cbn in Hj.
    destruct i as [|i].
    + cbn in Hi. injection Hi as ->.
      pose proof (spans_from_Forall _ _ _ Hl) as Hall.
      rewrite Forall_lookup in Hall. destruct (Hall _ _ Hj) as (H & _).
      exact H.
    + cbn in Hi. eapply IH; [exact Hl|exact Hi|exact Hj|lia].
Qed.

Lemma analyze_words_layout isword isspace text expected :
  word_chars_not_space isword isspace ->
  map WordAnalysis.word (EPS._analyze_words isword isspace text expected)
    = EPS._tokenize isword isspace text /\
  spans_from text 0 (EPS._analyze_words isword isspace text expected).
Proof.
  intros Hok.
  pose proof (tokenize_go_layout isword isspace text [] Hok
                ltac:(constructor)) as Hl.
  cbn [rev app] in Hl.
  exact (analyze_words_go_layout isspace expected text _ Hl []).
Qed.

Lemma basic_classes_ok : word_chars_not_space basic_isword py_isspace.
Proof.
  intros c. unfold token_char, basic_isword, py_isspace, is_hangul_syllable.
  intros H. apply not_true_is_false. intros Hs.
  rewrite ?orb_true_iff, ?andb_true_iff, ?N.leb_le, ?N.eqb_eq in H.
  rewrite ?orb_true_iff, ?andb_true_iff, ?N.leb_le, ?N.eqb_eq in Hs.
  lia.
Qed.

(** X3.  When no word character is white space (as in Unicode), the word
    analyses of a text are its tokens, one analysis per token and in the
    same order; in particular [word_count] is the number of tokens. *)
Theorem X3_one_analysis_per_token lower isword isspace text role target_age
    user_age :
  word_chars_not_space isword isspace ->
  let res := EPS.analyze lower isword isspace text role target_age user_age in
  map WordAnalysis.word (EnhancedPolitenessResult.word_analysis res)
    = EPS._tokenize isword isspace text /\
  EnhancedPolitenessResult.word_count res
    = Z.of_nat (length (EPS._tokenize isword isspace text)).
Proof.
  intros Hok. cbv zeta. unfold EPS.analyze.
  cbn [EnhancedPolitenessResult.word_analysis
       EnhancedPolitenessResult.word_count].
  destruct (analyze_words_layout isword isspace text
              (EPS._get_expected_level lower role target_age user_age) Hok)
    as [Hw _].
  split; [exact Hw|]. rewrite <- Hw, length_map. reflexivity.
Qed.

Lemma X3_one_analysis_per_token_witness :
  word_chars_not_space basic_isword py_isspace /\
  map WordAnalysis.word
      (EnhancedPolitenessResult.word_analysis
         (EPS.analyze ascii_lower basic_isword py_isspace text_professor
            (Some (str "professor")) (Some 55) 22))
    = EPS._tokenize basic_isword py_isspace text_professor.
Proof.
  split; [exact basic_classes_ok|].
  exact (proj1 (X3_one_analysis_per_token ascii_lower basic_isword py_isspace
                  text_professor (Some (str "professor")) (Some 55) 22
                  basic_classes_ok)).
Defined.

(** X4.  When no word character is white space, every word analysis
    carries the real offsets of its token: [0 <= position_start],
    [position_end = position_start + len(word)], [position_end <= len(text)]
    and [text[position_start:position_end] == word]; and the spans are in
    token order without overlap: an earlier analysis ends at or before the
    start of a later one. *)
Theorem X4_spans lower isword isspace text role target_age user_age :
  word_chars_not_space isword isspace ->
  let l := EnhancedPolitenessResult.word_analysis
             (EPS.analyze lower isword isspace text role target_age
                user_age) in
  (forall (i : nat) a, l !! i = Some a ->
     0 <= WordAnalysis.position_start a /\
     WordAnalysis.position_end a
       = WordAnalysis.position_start a
         + Z.of_nat (length (WordAnalysis.word a)) /\
     WordAnalysis.position_end a <= Z.of_nat (length text) /\
     slice text (WordAnalysis.position_start a) (WordAnalysis.position_end a)
       = WordAnalysis.word a) /\
  (forall (i j : nat) a b,
     l !! i = Some a -> l !! j = Some b -> (i < j)%nat ->
     WordAnalysis.position_end a <= WordAnalysis.position_start b).
Proof.
  intros Hok. cbv zeta. unfold EPS.analyze.
  cbn [EnhancedPolitenessResult.word_analysis].
  destruct (analyze_words_layout isword isspace text
              (EPS._get_expected_level lower role target_age user_age) Hok)
    as [_ Hs].
  split.
  - intros i a Hi. pose proof (spans_from_Forall _ _ _ Hs) as Hall.
    rewrite Forall_lookup in Hall. exact (Hall _ _ Hi).
  - intros i j a b Hi Hj Hij. exact (spans_from_ordered _ _ _ _ _ _ _ Hs Hi Hj Hij).
Qed.

Lemma X4_spans_witness :
  word_chars_not_space basic_isword py_isspace /\
  slice text_professor (WordAnalysis.position_start token_isseoyo)
        (WordAnalysis.position_end token_isseoyo)
    = WordAnalysis.word token_isseoyo.
Proof.
  split; [exact basic_classes_ok|].
  destruct (X4_spans ascii_lower basic_isword py_isspace text_professor
              (Some (str "professor")) (Some 55) 22 basic_classes_ok)
    as [Hspan _].
  destruct (Hspan 2%nat token_isseoyo) as (_ & _ & _ & Hslice);
    [vm_compute; reflexivity|exact Hslice].
Defined.

(** ** Score range *)

Lemma level_order_range l : 0 <= default 1 (EPS.level_order l) <= 2.
Proof. destruct l; cbn; lia. Qed.

Lemma calculate_score_range dominant expected breakdown error_count :
  0 <= error_count ->
  10 <= EPS._calculate_score dominant expected breakdown error_count <= 100 /\
  (error_count <= 1 ->
   25 <= EPS._calculate_score dominant expected breakdown error_count) /\
  (error_count <= 1 ->
   default 1 (EPS.level_order expected)
     <= default 1 (EPS.level_order dominant) ->
   65 <= EPS._calculate_score dominant expected breakdown error_count) /\
  (default 1 (EPS.level_order dominant)
     < default 1 (EPS.level_order expected) ->
   EPS._calculate_score dominant expected breakdown error_count <= 80).
Proof.
  intros Hn. unfold EPS._calculate_score.
  pose proof (level_order_range dominant).
  pose proof (level_order_range expected).
  generalize dependent (default 1 (EPS.level_order dominant)).
  generalize dependent (default 1 (EPS.level_order expected)).
  intros e He d Hd.
  generalize (EPS.ratio breakdown informal) (EPS.ratio breakdown polite)
             (EPS.ratio breakdown very_polite) (EPS.ratio breakdown honorific).
  intros ri rp rv rh.
  repeat match goal with
         | |- context [if ?a <=? ?b then _ else _] =>
             destruct (Z.leb_spec a b)
         | |- context [if ?a <? ?b then _ else _] =>
             destruct (Z.ltb_spec a b)
         | |- context [if ?a =? ?b then _ else _] =>
             destruct (Z.eqb_spec a b)
         end; repeat split; intros; lia.
Qed.

(** X5.  For a non-negative error count the word-level score lies between
    10 and 100: the raw sum of base, match, consistency, error and honorific
    terms never leaves that range, so the final clamp to [0, 100] changes
    nothing. *)
Theorem X5_score_range dominant expected breakdown error_count :
  0 <= error_count ->
  10 <= EPS._calculate_score dominant expected breakdown error_count <= 100.
Proof. intros Hn. apply calculate_score_range. exact Hn. Qed.

Lemma X5_score_range_witness :
  0 <= 1 /\
  10 <= EPS._calculate_score polite very_polite
          [ (informal, 0); (polite, 100); (very_polite, 0); (honorific, 0) ] 1
     <= 100.
Proof.
  split; [lia|].
  apply (X5_score_range polite very_polite
           [ (informal, 0); (polite, 100); (very_polite, 0); (honorific, 0) ]
           1).
  lia.
Defined.

Lemma check_appropriateness_true actual expected :
  EPS._check_appropriateness actual expected = true ->
  actual <> mixed /\
  default 1 (EPS.level_order expected) <= default 1 (EPS.level_order actual).
Proof.
  unfold EPS._check_appropriateness.
  destruct actual; try discriminate; intros H;
    (split; [discriminate|]); apply Z.leb_le; exact H.
Qed.

Lemma check_appropriateness_false actual expected :
  EPS._check_appropriateness actual expected = false ->
  actual <> mixed ->
  default 1 (EPS.level_order actual) < default 1 (EPS.level_order expected).
Proof.
  unfold EPS._check_appropriateness.
  destruct actual; try congruence; intros H _; apply Z.leb_gt; exact H.
Qed.

(** X6.  In every word-level analysis the score lies between 25 and 100;
    an appropriate result scores at least 65, and an inappropriate result
    whose dominant register is not Mixed scores at most 80. *)
Theorem X6_score_and_appropriateness lower isword isspace text role
    target_age user_age :
  let res := EPS.analyze lower isword isspace text role target_age user_age in
  25 <= EnhancedPolitenessResult.score res <= 100 /\
  (EnhancedPolitenessResult.is_appropriate res = true ->
   65 <= EnhancedPolitenessResult.score res) /\
  (EnhancedPolitenessResult.is_appropriate res = false ->
   EnhancedPolitenessResult.level res <> mixed ->
   EnhancedPolitenessResult.score res <= 80).
Proof.
  cbv zeta. unfold EPS.analyze.
  cbn [EnhancedPolitenessResult.score EnhancedPolitenessResult.is_appropriate
       EnhancedPolitenessResult.level].
  set (expected := EPS._get_expected_level lower role target_age user_age).
  set (analyses := EPS._analyze_words isword isspace text expected).
  pose proof (engine_errors_at_most_one isword isspace text expected) as Hn.
  fold analyses in Hn.
  set (n := Z.of_nat (length (EPS._categorize_errors analyses))).
  assert (0 <= n <= 1) as [Hn0 Hn1] by (subst n; lia).
  set (b := EPS._calculate_level_breakdown analyses).
  set (d := EPS._get_dominant_level b).
  destruct (calculate_score_range d expected b n Hn0)
    as (Hr & H25 & H65 & H80).
  split; [split; [apply H25; exact Hn1|apply Hr]|]. split.
  - intros Happ. apply check_appropriateness_true in Happ as [_ Hle].
    apply H65; assumption.
  - intros Happ Hmix. apply H80.
    apply check_appropriateness_false; assumption.
Qed.

(** ** Error summaries *)

Lemma error_types_token_error analyses :
  error_types analyses = omap token_error analyses.
Proof. reflexivity. Qed.

Lemma assoc_add_example k k' ex (d : list (pystr * list pystr)) :
  assoc k (EPS.add_example k' ex d)
  = if decide (k = k') then Some (default [] (assoc k d) ++ [ex])
    else assoc k d.
Proof.
  induction d as [|[k0 exs] d IH]; cbn [EPS.add_example assoc].
  - destruct (decide (k = k')); reflexivity.
  - destruct (decide (k' = k0)) as [->|Hne]; cbn [assoc].
    + destruct (decide (k = k0)); reflexivity.
    + rewrite IH.
      destruct (decide (k = k0)) as [->|Hk0]; [|reflexivity].
      rewrite decide_False by congruence. reflexivity.
Qed.

Lemma assoc_error_counts_fold k analyses (d : list (pystr * list pystr)) :
  assoc k
    (foldl
       (fun d a =>
          match WordAnalysis.error_type a with
          | Some (c :: r) => EPS.add_example (c :: r) (EPS.example_of a) d
          | _ => d
          end) d analyses)
  = match assoc k d, tokens_with_error k analyses with
    | None, [] => None
    | o, toks => Some (default [] o ++ map EPS.example_of toks)
    end.
Proof.
  revert d. induction analyses as [|a analyses IH]; intros d.
  - cbn. destruct (assoc k d); cbn; rewrite ?app_nil_r; reflexivity.
  - cbn [foldl]. rewrite IH. unfold tokens_with_error.
    rewrite filter_cons.
    destruct (WordAnalysis.error_type a) as [[|c r]|] eqn:He.
    + assert (token_error a = None) as ->
        by (unfold token_error; rewrite He; reflexivity).
      rewrite decide_False by discriminate. reflexivity.
    + assert (token_error a = Some (c :: r)) as ->
        by (unfold token_error; rewrite He; reflexivity).
      rewrite assoc_add_example.
      destruct (decide (k = c :: r)) as [->|Hne].
      * rewrite decide_True by reflexivity.
        destruct (assoc (c :: r) d); cbn [default from_option map app];
          unfold id; rewrite <- ?app_assoc; reflexivity.
      * rewrite decide_False by congruence. reflexivity.
    + assert (token_error a = None) as ->
        by (unfold token_error; rewrite He; reflexivity).
      rewrite decide_False by discriminate. reflexivity.
Qed.

(** The examples recorded for an error type are those of the tokens that
    carry it, in token order. *)
Lemma assoc_error_counts k analyses :
  assoc k (EPS.error_counts analyses)
  = match tokens_with_error k analyses with
    | [] => None
    | toks => Some (map EPS.example_of toks)
    end.
Proof.
  unfold EPS.error_counts. rewrite assoc_error_counts_fold. cbn [assoc].
  destruct (tokens_with_error k analyses); reflexivity.
Qed.

Lemma first_occurrences_NoDup_fold (ks seen : list pystr) :
  NoDup seen ->
  NoDup (foldl (fun seen k => if bool_decide (k ∈ seen) then seen
                              else seen ++ [k]) seen ks).
Proof.
  revert seen. induction ks as [|k ks IH]; intros seen Hseen; [exact Hseen|].
  cbn [foldl]. apply IH. case_bool_decide; [exact Hseen|].
  apply NoDup_app. split; [exact Hseen|]. split.
  - intros x Hx Hk. apply list_elem_of_singleton in Hk. congruence.
  - apply NoDup_singleton.
Qed.

Lemma error_counts_NoDup analyses :
  NoDup (map fst (EPS.error_counts analyses)).
Proof.
  rewrite error_counts_keys. apply first_occurrences_NoDup_fold. constructor.
Qed.

Lemma assoc_elem_of (k : pystr) (v : list pystr) d :
  NoDup (map fst d) -> (k, v) ∈ d -> assoc k d = Some v.
Proof.
  induction d as [|[k0 v0] d IH]; intros Hnd Hin.
  - apply elem_of_nil in Hin. contradiction.
  - cbn [map fst] in Hnd. apply NoDup_cons in Hnd as [Hk0 Hnd].
    cbn [assoc]. apply elem_of_cons in Hin as [Heq|Hin].
    + injection Heq as -> ->. rewrite decide_True by reflexivity. reflexivity.
    + destruct (decide (k = k0)) as [->|Hne]; [|apply IH; assumption].
      exfalso. apply Hk0. apply list_elem_of_fmap. exists (k0, v). split;
        [reflexivity|exact Hin].
Qed.

Lemma error_counts_entry analyses k exs :
  (k, exs) ∈ EPS.error_counts analyses ->
  exs = map EPS.example_of (tokens_with_error k analyses) /\
  tokens_with_error k analyses <> [].
Proof.
  intros Hin.
  pose proof (assoc_elem_of _ _ _ (error_counts_NoDup analyses) Hin) as Ha.
  rewrite assoc_error_counts in Ha.
  destruct (tokens_with_error k analyses); [discriminate|].
  injection Ha as <-. split; [reflexivity|discriminate].
Qed.

Lemma error_counts_key_of_token analyses a k :
  a ∈ analyses -> token_error a = Some k ->
  k ∈ map fst (EPS.error_counts analyses).
Proof.
  intros Ha Hk.
  destruct (assoc k (EPS.error_counts analyses)) as [exs|] eqn:Hass.
  - clear -Hass. induction (EPS.error_counts analyses) as [|[k0 v0] d IH];
      [discriminate|]. cbn [assoc] in Hass. cbn [map fst].
    destruct (decide (k = k0)) as [->|]; [left|right; apply IH; exact Hass].
  - rewrite assoc_error_counts in Hass.
    assert (a ∈ tokens_with_error k analyses) as Hin
      by (apply list_elem_of_filter; split; assumption).
    destruct (tokens_with_error k analyses);
      [apply elem_of_nil in Hin; contradiction|discriminate].
Qed.

Lemma error_details_types analyses :
  map ErrorDetail.error_type
      (map EPS.error_detail (EPS.error_counts analyses))
  = map fst (EPS.error_counts analyses).
Proof.
  induction (EPS.error_counts analyses) as [|[k exs] d IH]; [reflexivity|].
  cbn [map]. rewrite IH. reflexivity.
Qed.

(** X7.  The error categorizer returns one summary per distinct error type
    carried by the tokens: no type appears twice, every error type of a
    token has its summary, the count of a summary is the number of tokens
    that carry its type (at least one), and its examples are those of the
    first three such tokens. *)
Theorem X7_one_summary_per_type analyses :
  let es := EPS._categorize_errors analyses in
  NoDup (map ErrorDetail.error_type es) /\
  (forall e, e ∈ es ->
     let toks := tokens_with_error (ErrorDetail.error_type e) analyses in
     ErrorDetail.count e = Z.of_nat (length toks) /\
     1 <= ErrorDetail.count e /\
     ErrorDetail.examples e = map EPS.example_of (take 3 toks)) /\
  (forall a k, a ∈ analyses -> token_error a = Some k ->
     exists e, e ∈ es /\ ErrorDetail.error_type e = k).
Proof.
  cbv zeta. unfold EPS._categorize_errors. split; [|split].
  - rewrite (sort_by_key_perm EPS.severity_key), error_details_types.
    apply error_counts_NoDup.
  - intros e He. rewrite sort_by_key_perm in He.
    apply list_elem_of_fmap in He as ([k exs] & -> & Hin).
    destruct (error_counts_entry _ _ _ Hin) as [-> Hne].
    cbn [EPS.error_detail ErrorDetail.error_type ErrorDetail.count
         ErrorDetail.examples].
    rewrite length_map.
    destruct (tokens_with_error k analyses) as [|t l] eqn:Et; [congruence|].
    repeat split.
    + cbn [length]. lia.
    + apply firstn_map.
  - intros a k Ha Hk.
    pose proof (error_counts_key_of_token _ _ _ Ha Hk) as Hin.
    rewrite <- error_details_types in Hin.
    apply list_elem_of_fmap in Hin as (e & -> & He).
    exists e. split; [|reflexivity].
    rewrite sort_by_key_perm. exact He.
Qed.

Lemma ending_mismatch_nonempty :
  exists c r, str "ending_mismatch" = c :: r.
Proof. eexists _, _. vm_compute. reflexivity. Qed.

Lemma ending_mismatch_severity exs :
  ErrorDetail.severity (EPS.error_detail (str "ending_mismatch", exs))
  = str "high".
Proof. vm_compute. reflexivity. Qed.

(** In the engine a token carries an error type exactly when it is
    incorrect, and the type is then "ending_mismatch". *)
Lemma token_error_engine expected a :
  token_inv expected a ->
  token_error a
  = if WordAnalysis.is_correct a then None else Some (str "ending_mismatch").
Proof.
  intros Hinv. pose proof (token_error_type _ _ Hinv) as Hty.
  destruct Hinv as (_ & _ & He & _).
  unfold token_error.
  destruct (WordAnalysis.is_correct a).
  - rewrite He. reflexivity.
  - destruct Hty as [Hty|Hty]; [rewrite He in Hty; discriminate|].
    rewrite Hty. destruct ending_mismatch_nonempty as (c & r & ->).
    reflexivity.
Qed.

Lemma tokens_with_error_engine expected analyses :
  Forall (token_inv expected) analyses ->
  tokens_with_error (str "ending_mismatch") analyses
  = filter (fun a => WordAnalysis.is_correct a = false) analyses.
Proof.
  unfold tokens_with_error.
  induction 1 as [|a analyses Ha _ IH]; [reflexivity|].
  rewrite !filter_cons, IH, (token_error_engine _ _ Ha).
  destruct (WordAnalysis.is_correct a).
  - rewrite !decide_False by discriminate. reflexivity.
  - rewrite !decide_True by reflexivity. reflexivity.
Qed.

Lemma engine_error_detail expected analyses e :
  Forall (token_inv expected) analyses ->
  e ∈ EPS._categorize_errors analyses ->
  ErrorDetail.error_type e = str "ending_mismatch" /\
  ErrorDetail.severity e = str "high" /\
  ErrorDetail.count e
  = Z.of_nat
      (length (filter (fun a => WordAnalysis.is_correct a = false) analyses))
  /\ 1 <= ErrorDetail.count e.
Proof.
  intros Hinv He. unfold EPS._categorize_errors in He.
  rewrite sort_by_key_perm in He.
  apply list_elem_of_fmap in He as ([k exs] & -> & Hin).
  destruct (error_counts_entry _ _ _ Hin) as [-> Hne].
  assert (k = str "ending_mismatch") as ->.
  { destruct (tokens_with_error k analyses) as [|a l] eqn:Et; [congruence|].
    assert (a ∈ tokens_with_error k analyses) as Ha by (rewrite Et; left).
    apply list_elem_of_filter in Ha as [Hk Ha].
    rewrite Forall_forall in Hinv.
    rewrite (token_error_engine _ _ (Hinv _ Ha)) in Hk.
    destruct (WordAnalysis.is_correct a); congruence. }
  rewrite ending_mismatch_severity.
  rewrite (tokens_with_error_engine _ _ Hinv) in *.
  cbn [EPS.error_detail ErrorDetail.error_type ErrorDetail.count].
  rewrite length_map. repeat split.
  destruct (filter _ analyses); [congruence|]. cbn [length]. lia.
Qed.

Lemma omap_length_filter {A B : Type} (f : A -> option B) (P : A -> Prop)
    `{forall x, Decision (P x)} (l : list A) :
  (forall x, ~ P x -> f x = None) ->
  (length (omap f l) <= length (filter P l))%nat.
Proof.
  intros Hf. induction l as [|x l IH]; [reflexivity|].
  csimpl. rewrite filter_cons.
  destruct (decide (P x)) as [Hp|Hp].
  - destruct (f x); cbn [length]; lia.
  - rewrite (Hf _ Hp). exact IH.
Qed.

(** X8.  In every word-level analysis the error summaries account for
    exactly the incorrect tokens: [errors] is empty if and only if every
    token is correct, every summary has type "ending_mismatch", severity
    "high" and the number of incorrect tokens as its count, [error_count] is that number, and there are at most as many
    corrections as incorrect tokens. *)
Theorem X8_errors_match_incorrect_tokens lower isword isspace text role
    target_age user_age :
  let res := EPS.analyze lower isword isspace text role target_age user_age in
  let bad := filter (fun a => WordAnalysis.is_correct a = false)
                    (EnhancedPolitenessResult.word_analysis res) in
  (EnhancedPolitenessResult.errors res = [] <-> bad = []) /\
  (forall e, e ∈ EnhancedPolitenessResult.errors res ->
     ErrorDetail.error_type e = str "ending_mismatch" /\
     ErrorDetail.severity e = str "high" /\
     ErrorDetail.count e = Z.of_nat (length bad)) /\
  EnhancedPolitenessResult.error_count res = Z.of_nat (length bad) /\
  (length (EnhancedPolitenessResult.corrections res) <= length bad)%nat.
Proof.
  cbv zeta. unfold EPS.analyze.
  cbn [EnhancedPolitenessResult.errors EnhancedPolitenessResult.word_analysis
       EnhancedPolitenessResult.error_count
       EnhancedPolitenessResult.corrections].
  set (expected := EPS._get_expected_level lower role target_age user_age).
  set (analyses := EPS._analyze_words isword isspace text expected).
  pose proof (analyze_words_inv isword isspace text expected) as Hinv.
  fold analyses in Hinv.
  pose proof (engine_errors_at_most_one isword isspace text expected) as Hlen.
  fold analyses in Hlen.
  pose proof (engine_error_detail expected analyses) as Hdet.
  set (bad := filter (fun a => WordAnalysis.is_correct a = false) analyses)
    in *.
  assert (EPS._categorize_errors analyses = [] <-> bad = []) as Hempty.
  { split.
    - intros Hes. destruct bad as [|a l] eqn:Eb; [reflexivity|exfalso].
      assert (a ∈ bad) as Ha by (rewrite Eb; left).
      apply list_elem_of_filter in Ha as [Hc Ha].
      rewrite Forall_forall in Hinv.
      pose proof (token_error_engine _ _ (Hinv _ Ha)) as Hte.
      rewrite Hc in Hte.
      pose proof (error_counts_key_of_token _ _ _ Ha Hte) as Hk.
      rewrite <- error_details_types in Hk.
      apply list_elem_of_fmap in Hk as (e & _ & He).
      rewrite <- (sort_by_key_perm EPS.severity_key) in He.
      fold (EPS._categorize_errors analyses) in He.
      rewrite Hes in He. apply elem_of_nil in He. exact He.
    - intros Hb. destruct (EPS._categorize_errors analyses) as [|e es] eqn:Ee;
        [reflexivity|exfalso].
      destruct (Hdet e Hinv ltac:(left)) as (_ & _ & Hc & H1).
      rewrite Hb in Hc. cbn in Hc. lia. }
  split; [exact Hempty|]. split; [|split].
  - intros e He. destruct (Hdet e Hinv He) as (? & ? & ? & _).
    repeat split; assumption.
  - destruct (EPS._categorize_errors analyses) as [|e [|e' es]] eqn:Ee.
    + destruct Hempty as [Hb _]. rewrite (Hb eq_refl). reflexivity.
    + destruct (Hdet e Hinv ltac:(left)) as (_ & _ & Hc & _).
      cbn [map foldr]. lia.
    + cbn [length] in Hlen. lia.
  - rewrite (generate_corrections_table text analyses expected Hinv).
    apply omap_length_filter.
    intros a Ha. unfold table_correction.
    destruct (WordAnalysis.is_correct a); [reflexivity|congruence].
Qed.

(** ** Defaults and ranges of the classifiers *)

Lemma analyze_level_eq lower isword isspace text role target_age user_age :
  EnhancedPolitenessResult.level
    (EPS.analyze lower isword isspace text role target_age user_age)
  = EPS._get_dominant_level
      (EPS._calculate_level_breakdown
         (EnhancedPolitenessResult.word_analysis
            (EPS.analyze lower isword isspace text role target_age user_age))).
Proof. reflexivity. Qed.

(** X9.  A text without any informal, polite or very polite token (an empty
    text, or one of neutral and honorific tokens only) gets the dominant
    register Polite in the word-level analysis. *)
Theorem X9_default_polite lower isword isspace text role target_age user_age :
  let res := EPS.analyze lower isword isspace text role target_age user_age in
  register_bearing (EnhancedPolitenessResult.word_analysis res) = 0 ->
  EnhancedPolitenessResult.level res = polite.
Proof.
  cbv zeta. rewrite analyze_level_eq.
  set (analyses := EnhancedPolitenessResult.word_analysis _).
  intros Hrb.
  pose proof (count_level_nonneg analyses informal).
  pose proof (count_level_nonneg analyses polite).
  pose proof (count_level_nonneg analyses very_polite).
  unfold register_bearing in Hrb.
  assert (count_level analyses informal = 0) as Hi by lia.
  assert (count_level analyses polite = 0) as Hp by lia.
  assert (count_level analyses very_polite = 0) as Hv by lia.
  rewrite breakdown_eq.
  destruct (tagged analyses =? 0); [reflexivity|].
  rewrite !rounded_share_zero by assumption.
  destruct (dominant_level_cases 0 0 0 (rounded_share analyses honorific))
    as [Hmix Hcases]. cbv zeta in Hmix, Hcases.
  apply Hcases. intros Hm. apply Hmix in Hm.
  unfold mixed_condition in Hm. lia.
Qed.

Lemma X9_default_polite_witness :
  register_bearing
    (EnhancedPolitenessResult.word_analysis
       (EPS.analyze ascii_lower basic_isword py_isspace text_two_honorifics
          (Some (str "professor")) None 22)) = 0 /\
  EnhancedPolitenessResult.level
    (EPS.analyze ascii_lower basic_isword py_isspace text_two_honorifics
       (Some (str "professor")) None 22) = polite.
Proof.
  assert (register_bearing
            (EnhancedPolitenessResult.word_analysis
               (EPS.analyze ascii_lower basic_isword py_isspace
                  text_two_honorifics (Some (str "professor")) None 22)) = 0)
    as H0 by (vm_compute; reflexivity).
  split; [exact H0|].
  exact (X9_default_polite ascii_lower basic_isword py_isspace
           text_two_honorifics (Some (str "professor")) None 22 H0).
Defined.

Lemma dominant_level_main counts honorific_score :
  is_main (PS._get_dominant_level counts honorific_score) = true.
Proof.
  unfold PS._get_dominant_level.
  repeat match goal with
         | |- context [if ?b then _ else _] => destruct b
         end; reflexivity.
Qed.

Lemma recommended_level_main lower role target_age user_age :
  is_main (PS._get_recommended_level lower role target_age user_age) = true.
Proof.
  rewrite recommended_level_unfold. cbv zeta.
  repeat match goal with
         | |- context [if ?b then _ else _] => destruct b
         end; reflexivity.
Qed.

Lemma honorific_weight_fold_range (words : list (pystr * Z)) text :
  Forall (fun e => 0 <= e.2) words ->
  0 <= foldr Z.add 0
         (map snd (filter (fun e => contains (fst e) text = true) words))
    <= foldr Z.add 0 (map snd words).
Proof.
  induction 1 as [|[w p] words Hp _ IH]; [cbn; lia|].
  rewrite filter_cons. cbn [snd] in Hp.
  destruct (decide _); cbn [map foldr snd]; lia.
Qed.

Lemma honorific_weight_range text : 0 <= honorific_weight text <= 100.
Proof.
  unfold honorific_weight.
  assert (Forall (fun e : pystr * Z => 0 <= e.2) HONORIFIC_WORDS) as Hpos
    by (apply (bool_decide_unpack _); vm_compute; exact I).
  pose proof (honorific_weight_fold_range HONORIFIC_WORDS text Hpos) as H.
  assert (foldr Z.add 0 (map snd HONORIFIC_WORDS) = 100) as E
    by (vm_compute; reflexivity).
  rewrite E in H. exact H.
Qed.

Lemma analyze_score lower isspace text role target_age user_age :
  let res := PS.analyze lower isspace text role target_age user_age in
  PS.score res
  = PS._calculate_score (PS.level res) (PS.honorific_score res)
      (PS.level_counts res).
Proof.
  cbv zeta. unfold PS.analyze.
  destruct (foldl _ (PS.mkCounts 0 0 0, []) _) as [counts endings].
  destruct (foldl _ ([], 0) HONORIFIC_WORDS) as [found total].
  reflexivity.
Qed.

(** X10.  The sentence-level analysis always reports informal, polite or
    very_polite as its level (never another value), its honorific score
    lies between 0 and 100, and its score between 20 and 100. *)
Theorem X10_sentence_level_ranges lower isspace text role target_age
    user_age :
  let res := PS.analyze lower isspace text role target_age user_age in
  is_main (PS.level res) = true /\
  0 <= PS.honorific_score res <= 100 /\
  20 <= PS.score res <= 100.
Proof.
  cbv zeta.
  pose proof (analyze_score lower isspace text role target_age user_age) as Hs.
  cbv zeta in Hs. rewrite Hs, analyze_level, analyze_honorific_score.
  pose proof (honorific_weight_range text) as Hw.
  set (counts := PS.level_counts _) in *.
  pose proof (dominant_level_main counts (honorific_weight text)) as Hm.
  split; [exact Hm|]. split; [exact Hw|].
  unfold PS._calculate_score.
  destruct (PS._get_dominant_level counts (honorific_weight text));
    try discriminate;
    repeat match goal with
           | |- context [if ?b then _ else _] => destruct b
           end; lia.
Qed.

Lemma generate_feedback_main lower actual recommended role :
  is_main actual = true -> is_main recommended = true ->
  exists fb, PS._generate_feedback lower actual recommended role = Some fb.
Proof.
  destruct actual, recommended; try discriminate; intros _ _;
    eexists; reflexivity.
Qed.

Lemma analyze_appropriate lower isspace text role target_age user_age :
  let res := PS.analyze lower isspace text role target_age user_age in
  PS.recommended_level res
  = match role with
    | Some (c :: r) =>
        Some (PS._get_recommended_level lower (c :: r) target_age user_age)
    | _ => None
    end /\
  PS.is_appropriate res
  = match PS.recommended_level res with
    | Some rec => PS._check_appropriateness (PS.level res) rec
    | None => true
    end.
Proof.
  cbv zeta. unfold PS.analyze.
  destruct (foldl _ (PS.mkCounts 0 0 0, []) _) as [counts endings].
  destruct (foldl _ ([], 0) HONORIFIC_WORDS) as [found total].
  split; reflexivity.
Qed.

(** X11.  The sentence-level analysis never fails on a dict lookup: the
    level names and, when needed, the feedback are always found.  Feedback
    is produced exactly when the level is inappropriate, which can only
    happen when a target role was given. *)
Theorem X11_feedback_iff_inappropriate lower isspace text role target_age
    user_age :
  let res := PS.analyze lower isspace text role target_age user_age in
  exists level_ko level_en feedback,
    PS.analyze_presentation lower isspace text role target_age user_age
      = Some (level_ko, level_en, feedback) /\
    (feedback = None <-> PS.is_appropriate res = true) /\
    (PS.is_appropriate res = false -> exists c r, role = Some (c :: r)).
Proof.
  cbv zeta. unfold PS.analyze_presentation.
  destruct (analyze_appropriate lower isspace text role target_age user_age)
    as [Hrec Happ]. cbv zeta in Hrec, Happ.
  pose proof (Hlvl := analyze_level lower isspace text role
                                         target_age user_age).
  set (res := PS.analyze lower isspace text role target_age user_age) in *.
  assert (is_main (PS.level res) = true) as Hmain
    by (rewrite Hlvl; apply dominant_level_main).
  destruct (PS.level_names (PS.level res)) as [[ko en]|] eqn:Hnames;
    [|destruct (PS.level res); discriminate].
  cbn [mbind option_bind fst snd].
  rewrite Happ. rewrite Hrec.
  destruct role as [[|c r]|].
  - exists ko, en, None. repeat split; try reflexivity. discriminate.
  - set (rec := PS._get_recommended_level lower (c :: r) target_age user_age).
    destruct (PS._check_appropriateness (PS.level res) rec) eqn:Hok;
      cbn [negb].
    + exists ko, en, None. repeat split; try reflexivity. discriminate.
    + destruct (generate_feedback_main lower (PS.level res) rec (c :: r) Hmain
                  (recommended_level_main _ _ _ _)) as [fb ->].
      exists ko, en, (Some fb). repeat split; try discriminate.
      intros _. eauto.
  - exists ko, en, None. repeat split; try reflexivity. discriminate.
Qed.

(** ** Sentence splitting *)

Lemma lstrip_Forall isspace (P : N -> Prop) s :
  Forall P s -> Forall P (lstrip isspace s).
Proof.
  induction 1 as [|c s Hc Hs IH]; cbn; [constructor|].
  destruct (isspace c); [exact IH|constructor; assumption].
Qed.

Lemma strip_Forall isspace (P : N -> Prop) s :
  Forall P s -> Forall P (strip isspace s).
Proof.
  intros Hs. unfold strip.
  apply Forall_rev, lstrip_Forall, Forall_rev, lstrip_Forall, Hs.
Qed.

Lemma lstrip_head isspace s c r :
  lstrip isspace s = c :: r -> isspace c = false.
Proof.
  induction s as [|x s IH]; cbn; [discriminate|].
  destruct (isspace x) eqn:Hx; [exact IH|].
  intros Heq. injection Heq as -> _. exact Hx.
Qed.

Lemma lstrip_suffix isspace s :
  exists pre, s = pre ++ lstrip isspace s.
Proof.
  induction s as [|x s [pre IH]]; cbn; [exists []; reflexivity|].
  destruct (isspace x); [|exists []; reflexivity].
  exists (x :: pre). cbn. rewrite <- IH. reflexivity.
Qed.

Lemma lstrip_fixed isspace s :
  (forall c r, s = c :: r -> isspace c = false) -> lstrip isspace s = s.
Proof.
  destruct s as [|c r]; [reflexivity|]. intros H. cbn.
  rewrite (H c r eq_refl). reflexivity.
Qed.

(** [strip] returns a string that needs no further stripping. *)
Lemma strip_idempotent isspace s :
  strip isspace (strip isspace s) = strip isspace s.
Proof.
  set (u := lstrip isspace (rev (lstrip isspace s))).
  assert (strip isspace s = rev u) as Hu by reflexivity.
  assert (lstrip isspace u = u) as Hfix.
  { apply lstrip_fixed. intros c r Hcr. subst u.
    exact (lstrip_head _ _ _ _ Hcr). }
  assert (lstrip isspace (rev u) = rev u) as Hfix'.
  { apply lstrip_fixed. intros c r Hcr.
    destruct (lstrip_suffix isspace (rev (lstrip isspace s))) as [pre Hpre].
    fold u in Hpre.
    apply (f_equal (@rev N)) in Hpre.
    rewrite rev_involutive, rev_app_distr, Hcr in Hpre.
    cbn [app] in Hpre. exact (lstrip_head _ _ _ _ Hpre). }
  rewrite Hu. unfold strip. rewrite Hfix', rev_involutive, Hfix.
  reflexivity.
Qed.

Lemma split_go_no_separator isspace text cur skipping :
  Forall (fun c => PS.is_sentence_end c = false) cur ->
  Forall (Forall (fun c => PS.is_sentence_end c = false))
         (PS.split_go isspace text cur skipping).
Proof.
  revert cur skipping.
  induction text as [|c r IH]; intros cur skipping Hcur; cbn [PS.split_go].
  - constructor; [apply Forall_rev; exact Hcur|constructor].
  - destruct (skipping && isspace c); [apply IH; exact Hcur|].
    destruct (PS.is_sentence_end c) eqn:Hsep.
    + constructor; [apply Forall_rev; exact Hcur|]. apply IH. constructor.
    + apply IH. constructor; assumption.
Qed.

(** X12.  Every sentence returned by the sentence splitter is non-empty,
    contains none of the terminators [. ? ! 。 ？ ！], and is stripped:
    stripping it again returns it unchanged, so it neither starts nor ends
    with white space. *)
Theorem X12_split_sentences isspace text :
  Forall (fun s =>
            s <> [] /\
            Forall (fun c => PS.is_sentence_end c = false) s /\
            strip isspace s = s)
         (PS._split_sentences isspace text).
Proof.
  unfold PS._split_sentences.
  pose proof (split_go_no_separator isspace text [] false ltac:(constructor))
    as Hall.
  induction Hall as [|piece pieces Hp _ IH]; [constructor|].
  csimpl. destruct (bool_decide (strip isspace piece = [])) eqn:He;
    [exact IH|].
  constructor; [|exact IH].
  apply bool_decide_eq_false in He.
  split; [exact He|]. split; [apply strip_Forall; exact Hp|].
  apply strip_idempotent.
Qed.

(** ** Conversion tables and helpers of corrections.py *)

Lemma informal_to_formal_factors :
  Forall (fun e : pystr * pystr =>
            exists p, INFORMAL_TO_POLITE !! e.1 = Some p /\
                      POLITE_TO_FORMAL !! p = Some e.2)
         INFORMAL_TO_FORMAL_items.
Proof.
  unfold INFORMAL_TO_FORMAL_items.
  repeat (constructor; [eexists; split; vm_compute; reflexivity|]).
  constructor.
Qed.

(** X13.  [get_correction] and the word-level service's own
    [_get_suggestion] are the same function, and the direct
    informal-to-formal table is consistent with the two single steps:
    whenever a word has a direct correction from informal to very_polite,
    correcting it to polite and that result to very_polite gives the same
    form. *)
Theorem X13_direct_correction_factors word v :
  get_correction word informal very_polite = Some v ->
  (exists p, get_correction word informal polite = Some p /\
             get_correction p polite very_polite = Some v) /\
  (forall w current expected,
     EPS._get_suggestion w current expected
     = get_correction w current expected).
Proof.
  unfold get_correction at 1. intros Hl. split.
  - apply elem_of_list_to_map_2 in Hl.
    pose proof informal_to_formal_factors as Hall.
    rewrite Forall_forall in Hall. exact (Hall _ Hl).
  - intros w current expected. destruct current, expected; reflexivity.
Qed.

Lemma X13_direct_correction_factors_witness :
  get_correction (str "해줘") informal very_polite = Some (str "해 주십시오") /\
  exists p, get_correction (str "해줘") informal polite = Some p /\
            get_correction p polite very_polite = Some (str "해 주십시오").
Proof.
  assert (get_correction (str "해줘") informal very_polite
          = Some (str "해 주십시오")) as H by (vm_compute; reflexivity).
  split; [exact H|].
  exact (proj1 (X13_direct_correction_factors (str "해줘") (str "해 주십시오") H)).
Defined.

Lemma word_formality_forms :
  Forall (fun e : pystr * gmap pystr pystr =>
            exists p f, e.2 = word_forms p f)
         WORD_FORMALITY_items.
Proof.
  unfold WORD_FORMALITY_items.
  repeat (constructor; [eexists _, _; reflexivity|]). constructor.
Qed.

Lemma word_forms_lookup p f level v :
  word_forms p f !! level = Some v ->
  level = str "polite" \/ level = str "formal".
Proof.
  unfold word_forms. intros Hl. apply elem_of_list_to_map_2 in Hl.
  apply elem_of_cons in Hl as [Hl|Hl]; [left; congruence|].
  apply elem_of_cons in Hl as [Hl|Hl]; [right; congruence|].
  apply elem_of_nil in Hl. contradiction.
Qed.

(** X14.  [get_formal_word] answers only for the ten words of
    [WORD_FORMALITY] and only for the level keys "polite" and "formal"; for
    any other level string, such as the services' own "very_polite", it
    returns nothing. *)
Theorem X14_get_formal_word word level v :
  get_formal_word word level = Some v ->
  word ∈ map fst WORD_FORMALITY_items /\
  (level = str "polite" \/ level = str "formal").
Proof.
  unfold get_formal_word.
  destruct (WORD_FORMALITY !! word) as [forms|] eqn:Hw; [|discriminate].
  intros Hl. apply elem_of_list_to_map_2 in Hw.
  split.
  - apply list_elem_of_fmap. exists (word, forms). split; [reflexivity|exact Hw].
  - pose proof word_formality_forms as Hall. rewrite Forall_forall in Hall.
    destruct (Hall _ Hw) as (p & f & Hf). cbn [snd] in Hf. subst forms.
    exact (word_forms_lookup _ _ _ _ Hl).
Qed.

Lemma X14_get_formal_word_witness :
  get_formal_word (str "밥") (str "formal") = Some (str "진지") /\
  str "밥" ∈ map fst WORD_FORMALITY_items.
Proof.
  assert (get_formal_word (str "밥") (str "formal") = Some (str "진지")) as H
    by (vm_compute; reflexivity).
  split; [exact H|].
  exact (proj1 (X14_get_formal_word (str "밥") (str "formal") (str "진지") H)).
Defined.

(** ** The relationship endpoint *)

(** X15.  In the relationship endpoint the difficulty follows the
    recommended formality: very_polite comes with difficulty hard, polite
    never comes with easy, and difficulty easy comes with informal speech
    and an age gap of at most five years. *)
Theorem X15_relationship_difficulty lower user_role user_age avatar_role
    avatar_age :
  let rel := AnalysisApi.analyze_relationship lower user_role user_age
               avatar_role avatar_age in
  (AnalysisApi.recommended_formality rel = very_polite ->
   AnalysisApi.difficulty rel = AnalysisApi.hard) /\
  (AnalysisApi.recommended_formality rel = polite ->
   AnalysisApi.difficulty rel <> AnalysisApi.easy) /\
  (AnalysisApi.difficulty rel = AnalysisApi.easy ->
   AnalysisApi.recommended_formality rel = informal /\
   AnalysisApi.age_gap rel <= 5) /\
  AnalysisApi.age_gap rel = avatar_age - user_age.
Proof.
  cbv zeta. unfold AnalysisApi.analyze_relationship.
  generalize (default 0 (ROLE_LEVELS !! lower user_role)).
  generalize (default 1 (ROLE_LEVELS !! lower avatar_role)).
  intros al ul.
  destruct (Z.leb_spec 3 al); cbn [orb].
  - cbn. repeat split; intros; congruence.
  - destruct (Z.ltb_spec 20 (avatar_age - user_age)).
    + destruct (0 <? al - ul); cbn; repeat split; intros; congruence.
    + destruct (Z.ltb_spec 0 (al - ul)); cbn [orb].
      * cbn. repeat split; intros; congruence.
      * destruct (Z.ltb_spec 5 (avatar_age - user_age)); cbn;
          repeat split; intros; try congruence; lia.
Qed.

(** X16.  For a user whose role is "student" the relationship endpoint
    recommends the register that the sentence-level service recommends for
    the same target role when no target age is given. *)
Theorem X16_relationship_agrees_with_service lower user_role user_age
    avatar_role avatar_age :
  lower user_role = str "student" ->
  AnalysisApi.recommended_formality
    (AnalysisApi.analyze_relationship lower user_role user_age avatar_role
       avatar_age)
  = PS._get_recommended_level lower avatar_role None user_age.
Proof.
  intros Hu. rewrite recommended_level_unfold. cbv zeta.
  unfold AnalysisApi.analyze_relationship, role_level.
  rewrite Hu, student_level.
  generalize (default 1 (ROLE_LEVELS !! lower avatar_role)). intros al.
  change (default 0 (Some 0)) with 0. rewrite Z.sub_0_r.
  destruct (3 <=? al); cbn [orb]; [reflexivity|].
  destruct (20 <? avatar_age - user_age); [destruct (0 <? al); reflexivity|].
  destruct (0 <? al); cbn [orb]; [reflexivity|].
  destruct (5 <? avatar_age - user_age); reflexivity.
Qed.

Lemma X16_relationship_agrees_with_service_witness :
  ascii_lower (str "Student") = str "student" /\
  AnalysisApi.recommended_formality
    (AnalysisApi.analyze_relationship ascii_lower (str "Student") 22
       (str "senior") 26)
  = PS._get_recommended_level ascii_lower (str "senior") None 22.
Proof.
  assert (ascii_lower (str "Student") = str "student") as H
    by (vm_compute; reflexivity).
  split; [exact H|].
  exact (X16_relationship_agrees_with_service ascii_lower (str "Student") 22
           (str "senior") 26 H).
Defined.

(** X17.  The relationship tips are two general tips, plus a third one
    exactly when the formality is very_polite and the role is literally
    "professor", or the formality is polite and the role is literally
    "senior"; the role is compared as given, without lower-casing. *)
Theorem X17_relationship_tips formality role :
  let n := length (AnalysisApi._get_relationship_tips formality role) in
  (n = 2%nat \/ n = 3%nat) /\
  (n = 3%nat <->
   (formality = very_polite /\ role = str "professor") \/
   (formality = polite /\ role = str "senior")).
Proof.
  cbv zeta. unfold AnalysisApi._get_relationship_tips.
  destruct formality; repeat case_bool_decide; cbn [length app];
    (split; [auto|]); split; intros Hn; try discriminate; auto;
    try (destruct Hn as [[? ?]|[? ?]]; congruence).
Qed.

(** ** Ratios, feedback and the two appropriateness checks *)

Lemma count_level_le_tagged analyses l :
  l <> neutral -> l <> mixed -> count_level analyses l <= tagged analyses.
Proof.
  intros Hn Hm. unfold tagged, register_bearing.
  pose proof (count_level_nonneg analyses informal).
  pose proof (count_level_nonneg analyses polite).
  pose proof (count_level_nonneg analyses very_polite).
  pose proof (count_level_nonneg analyses honorific).
  destruct l; try congruence; lia.
Qed.

(** X18.  Every ratio of the level breakdown lies between 0 and 1 (0 and
    100 hundredths); a level with a positive ratio is the level of some
    token, and a level that all counted tokens share has ratio 1. *)
Theorem X18_ratio_range analyses l :
  let r := EPS.ratio (EPS._calculate_level_breakdown analyses) l in
  0 <= r <= 100 /\
  (0 < r ->
   exists i a, analyses !! i = Some a /\ WordAnalysis.current_level a = l) /\
  (l <> neutral -> l <> mixed -> 0 < tagged analyses ->
   count_level analyses l = tagged analyses -> r = 100).
Proof.
  cbv zeta.
  destruct (decide (l = neutral)) as [->|Hn].
  { destruct (breakdown_shape analyses) as (x & y & z & h & ->).
    rewrite ratio_shape. repeat split; try lia; congruence. }
  destruct (decide (l = mixed)) as [->|Hm].
  { destruct (breakdown_shape analyses) as (x & y & z & h & ->).
    rewrite ratio_shape. repeat split; try lia; congruence. }
  rewrite (ratio_breakdown analyses l Hn Hm).
  pose proof (tagged_nonneg analyses) as Ht.
  pose proof (count_level_nonneg analyses l) as Hc.
  pose proof (count_level_le_tagged analyses l Hn Hm) as Hle.
  destruct (Z.eqb_spec (tagged analyses) 0) as [H0|H0].
  { repeat split; try lia. }
  assert (0 < tagged analyses) as Hpos by lia.
  pose proof (round2_error (count_level analyses l) (tagged analyses)
                ltac:(lia) Hpos) as Herr.
  fold (rounded_share analyses l) in Herr.
  set (k := rounded_share analyses l) in *.
  set (c := count_level analyses l) in *. set (t := tagged analyses) in *.
  split; [nia|]. split.
  - intros Hk. apply count_level_pos_exists. fold c.
    destruct (Z.eq_dec c 0) as [Hc0|Hc0]; [|lia].
    subst k. unfold c in Hc0. rewrite (rounded_share_zero _ _ Hc0) in Hk. lia.
  - intros _ _ _ Hall. rewrite Hall in Herr. nia.
Qed.

Lemma feedback_en_not_praise x : str "Use " ++ x <> EPS.praise.2.
Proof.
  intros H. apply (f_equal head) in H. vm_compute in H. discriminate.
Qed.

Lemma check_appropriateness_refl l :
  is_main l = true -> EPS._check_appropriateness l l = true.
Proof. destruct l; try discriminate; reflexivity. Qed.

(** X19.  The word-level feedback is the fixed praise message exactly when
    the analysis reports the level as appropriate; otherwise it is an
    instruction that differs from the praise. *)
Theorem X19_praise_iff_appropriate lower isword isspace text role target_age
    user_age :
  let res := EPS.analyze lower isword isspace text role target_age user_age in
  (EPS.analyze_presentation lower isword isspace text role target_age
     user_age).2 = EPS.praise
  <-> EnhancedPolitenessResult.is_appropriate res = true.
Proof.
  cbv zeta. unfold EPS.analyze_presentation. cbn [snd].
  unfold EPS.analyze.
  cbn [EnhancedPolitenessResult.level EnhancedPolitenessResult.is_appropriate
       EnhancedPolitenessResult.errors].
  pose proof (expected_level_main lower role target_age user_age) as Hmain.
  set (expected := EPS._get_expected_level lower role target_age user_age) in *.
  set (analyses := EPS._analyze_words isword isspace text expected).
  set (d := EPS._get_dominant_level (EPS._calculate_level_breakdown analyses)).
  generalize (EPS._categorize_errors analyses). intros errors.
  unfold EPS._generate_feedback.
  destruct (EPS._check_appropriateness d expected) eqn:Happ.
  - rewrite orb_true_r. split; reflexivity.
  - case_bool_decide as Heq.
    + rewrite Heq, (check_appropriateness_refl _ Hmain) in Happ. discriminate.
    + cbn [orb]. cbv zeta. split; [|discriminate].
      intros H. apply (f_equal snd) in H. cbn [snd] in H.
      exfalso. eapply feedback_en_not_praise. exact H.
Qed.

(** X20.  The appropriateness checks of the two services agree on every
    level but Mixed: the sentence-level check ranks Mixed (and any other
    level outside the three registers) as Polite, the word-level check
    rejects Mixed against every expected level. *)
Theorem X20_appropriateness_checks actual recommended :
  (actual <> mixed ->
   PS._check_appropriateness actual recommended
   = EPS._check_appropriateness actual recommended) /\
  PS._check_appropriateness mixed recommended
  = PS._check_appropriateness polite recommended /\
  EPS._check_appropriateness mixed recommended = false.
Proof.
  split; [|split; reflexivity].
  destruct actual, recommended; intros H; try congruence; reflexivity.
Qed.

(** ** The ending patterns look at the end of the sentence only *)

Lemma at_end_length s : Re.at_end s = true -> (length s <= 1)%nat.
Proof. destruct s as [|c [|c' s]]; cbn; intros H; try discriminate; lia. Qed.

Lemma match_here_length re s :
  anchored re = true -> Re.match_here re s = true ->
  (length s <= reach re + 1)%nat.
Proof.
  revert s. induction re as [|i re IH]; intros s Ha Hm; [discriminate|].
  destruct i as [cs|cs|]; cbn [anchored existsb orb] in Ha;
    cbn [Re.match_here reach] in *.
  - destruct s as [|c s]; [discriminate|].
    apply andb_true_iff in Hm as [_ Hm]. specialize (IH s Ha Hm).
    cbn [length]. lia.
  - apply orb_true_iff in Hm as [Hm|Hm].
    + destruct s as [|c s]; [discriminate|].
      apply andb_true_iff in Hm as [_ Hm]. specialize (IH s Ha Hm).
      cbn [length]. lia.
    + specialize (IH s Ha Hm). lia.
  - apply andb_true_iff in Hm as [He _]. apply at_end_length in He. lia.
Qed.

Lemma search_prog_suffix re pre s :
  anchored re = true -> (reach re + 1 <= length s)%nat ->
  Re.search_prog re (pre ++ s) = Re.search_prog re s.
Proof.
  intros Ha Hlen. induction pre as [|c pre IH]; [reflexivity|].
  cbn [app Re.search_prog]. rewrite IH.
  destruct (Re.match_here re (c :: pre ++ s)) eqn:Hm; [|reflexivity].
  apply (match_here_length _ _ Ha) in Hm.
  cbn [length] in Hm. rewrite length_app in Hm. lia.
Qed.

Lemma ending_patterns_anchored :
  Forall (fun e : Level * list Re.Pattern =>
            Forall (fun p => anchored (Re.prog p) = true /\
                             (reach (Re.prog p) <= 4)%nat) e.2)
         PS._compiled_patterns.
Proof.
  repeat (constructor;
          [repeat (constructor; [split; [reflexivity|vm_compute; lia]|]);
           constructor|]).
  constructor.
Qed.

Lemma list_find_search_ext (ps : list Re.Pattern) s1 s2 :
  Forall (fun p => Re.search p s1 = Re.search p s2) ps ->
  list_find (fun p => Re.search p s1) ps
  = list_find (fun p => Re.search p s2) ps.
Proof.
  induction 1 as [|p ps Hp _ IH]; [reflexivity|].
  cbn [list_find]. rewrite IH.
  destruct (Re.search p s1) eqn:H1; rewrite <- Hp;
    repeat case_decide; try reflexivity; cbn in *; tauto.
Qed.

Lemma patterns_of_anchored lvl :
  Forall (fun p => anchored (Re.prog p) = true /\
                   (reach (Re.prog p) <= 4)%nat) (PS.patterns_of lvl).
Proof.
  pose proof ending_patterns_anchored as Hall.
  unfold PS.patterns_of.
  destruct (list_find _ PS._compiled_patterns) as [[i [l ps]]|] eqn:Hf;
    [|constructor].
  apply list_find_Some in Hf as (Hi & _ & _).
  rewrite Forall_lookup in Hall. exact (Hall _ _ Hi).
Qed.

Lemma first_match_suffix lvl pre s :
  (5 <= length s)%nat ->
  PS.first_match lvl (pre ++ s) = PS.first_match lvl s.
Proof.
  intros Hlen. unfold PS.first_match.
  rewrite (list_find_search_ext _ (pre ++ s) s); [reflexivity|].
  eapply Forall_impl; [apply patterns_of_anchored|].
  intros p [Ha Hr]. unfold Re.search.
  apply search_prog_suffix; [exact Ha|lia].
Qed.

(** X21.  The register of a sentence is decided by its last five code
    points: two sentences without surrounding white space that end in the
    same five or more code points are detected alike, level and matched
    pattern. *)
Theorem X21_ending_locality isspace pre s :
  (5 <= length s)%nat ->
  strip isspace (pre ++ s) = pre ++ s ->
  strip isspace s = s ->
  PS._detect_sentence_level isspace (pre ++ s)
  = PS._detect_sentence_level isspace s.
Proof.
  intros Hlen Hps Hs. unfold PS._detect_sentence_level. cbv zeta.
  rewrite Hps, Hs.
  assert (s <> []) as Hne by (intros ->; cbn in Hlen; lia).
  rewrite (bool_decide_eq_false_2 (pre ++ s = []))
    by (intros H; apply app_eq_nil in H as [_ H]; contradiction).
  rewrite (bool_decide_eq_false_2 (s = [])) by exact Hne.
  cbn [map]. rewrite !first_match_suffix by exact Hlen. reflexivity.
Qed.

Lemma X21_ending_locality_witness :
  PS._detect_sentence_level py_isspace (str "저는 학생" ++ str "이었습니다")
  = PS._detect_sentence_level py_isspace (str "이었습니다").
Proof.
  apply (X21_ending_locality py_isspace (str "저는 학생") (str "이었습니다")).
  - vm_compute. lia.
  - vm_compute. reflexivity.
  - vm_compute. reflexivity.
Defined.

(** ** Sentence counts of the sentence-level analysis *)

Lemma sentences_at_cons isspace l s sentences :
  sentences_at isspace l (s :: sentences) =
  (if decide ((PS._detect_sentence_level isspace s).1 = Some l) then 1 else 0)
  + sentences_at isspace l sentences.
Proof.
  unfold sentences_at. rewrite filter_cons.
  destruct (decide _); cbn [length]; lia.
Qed.

Lemma incr_count_fields counts lvl :
  PS.n_very_polite (PS.incr_count counts lvl)
  = PS.n_very_polite counts + (if decide (Some lvl = Some very_polite) then 1 else 0) /\
  PS.n_polite (PS.incr_count counts lvl)
  = PS.n_polite counts + (if decide (Some lvl = Some polite) then 1 else 0) /\
  PS.n_informal (PS.incr_count counts lvl)
  = PS.n_informal counts + (if decide (Some lvl = Some informal) then 1 else 0).
Proof.
  destruct lvl; cbn [PS.incr_count PS.n_very_polite PS.n_polite PS.n_informal];
    repeat case_decide; try congruence; repeat split; lia.
Qed.

Lemma sentence_counts_fold isspace sentences counts endings :
  let r :=
    foldl
      (fun '(counts, endings) sentence =>
         match PS._detect_sentence_level isspace sentence with
         | (Some lvl, Some ending) =>
             (PS.incr_count counts lvl,
              if bool_decide (ending = []) then endings
              else endings ++ [ending])
         | (Some lvl, None) => (PS.incr_count counts lvl, endings)
         | (None, _) => (counts, endings)
         end)
      (counts, endings) sentences in
  PS.n_very_polite r.1
  = PS.n_very_polite counts + sentences_at isspace very_polite sentences /\
  PS.n_polite r.1
  = PS.n_polite counts + sentences_at isspace polite sentences /\
  PS.n_informal r.1
  = PS.n_informal counts + sentences_at isspace informal sentences.
Proof.
  cbv zeta. revert counts endings.
  induction sentences as [|s sentences IH]; intros counts endings.
  - unfold sentences_at. cbn. repeat split; lia.
  - cbn [foldl]. rewrite !sentences_at_cons.
    destruct (PS._detect_sentence_level isspace s) as [[lvl|] [e|]];
      cbn [fst].
    + destruct (IH (PS.incr_count counts lvl)
                  (if bool_decide (e = []) then endings else endings ++ [e]))
        as (-> & -> & ->).
      destruct (incr_count_fields counts lvl) as (-> & -> & ->).
      repeat split; lia.
    + destruct (IH (PS.incr_count counts lvl) endings) as (-> & -> & ->).
      destruct (incr_count_fields counts lvl) as (-> & -> & ->).
      repeat split; lia.
    + destruct (IH counts endings) as (-> & -> & ->).
      rewrite !decide_False by discriminate. repeat split; lia.
    + destruct (IH counts endings) as (-> & -> & ->).
      rewrite !decide_False by discriminate. repeat split; lia.
Qed.

Lemma sentences_at_nonneg isspace l sentences :
  0 <= sentences_at isspace l sentences.
Proof. unfold sentences_at. lia. Qed.

(** X22.  The level counts of the sentence-level analysis are the numbers
    of sentences detected at each register; at most five endings and five
    honorific words are reported; a single very polite sentence makes the
    whole text VeryPolite, and otherwise, below an honorific score of 15,
    the text is Informal only if there is an informal sentence and the
    informal sentences are at least as many as the polite ones. *)
Theorem X22_sentence_counts lower isspace text role target_age user_age :
  let res := PS.analyze lower isspace text role target_age user_age in
  let n l := sentences_at isspace l (PS._split_sentences isspace text) in
  PS.n_very_polite (PS.level_counts res) = n very_polite /\
  PS.n_polite (PS.level_counts res) = n polite /\
  PS.n_informal (PS.level_counts res) = n informal /\
  (length (PS.endings_found res) <= 5)%nat /\
  (length (PS.honorifics_found res) <= 5)%nat /\
  (0 < n very_polite -> PS.level res = very_polite) /\
  (PS.level res = informal <->
   PS.honorific_score res < 15 /\ n very_polite = 0 /\
   0 < n informal /\ n polite <= n informal).
Proof.
  cbv zeta.
  pose proof (analyze_level lower isspace text role target_age user_age)
    as Hlvl.
  revert Hlvl. unfold PS.analyze.
  pose proof (sentence_counts_fold isspace (PS._split_sentences isspace text)
                (PS.mkCounts 0 0 0) []) as Hc. cbv zeta in Hc.
  destruct (foldl _ (PS.mkCounts 0 0 0, []) _) as [counts endings].
  destruct (foldl _ ([], 0) HONORIFIC_WORDS) as [found total].
  cbn [fst PS.n_very_polite PS.n_polite PS.n_informal] in Hc.
  destruct Hc as (Hv & Hp & Hi).
  cbn [PS.level PS.level_counts PS.endings_found PS.honorifics_found
       PS.honorific_score].
  intros _.
  pose proof (sentences_at_nonneg isspace very_polite
                (PS._split_sentences isspace text)) as Hv0.
  pose proof (sentences_at_nonneg isspace polite
                (PS._split_sentences isspace text)) as Hp0.
  pose proof (sentences_at_nonneg isspace informal
                (PS._split_sentences isspace text)) as Hi0.
  rewrite !Z.add_0_l in *.
  split; [exact Hv|]. split; [exact Hp|]. split; [exact Hi|].
  rewrite !length_take.
  split; [lia|]. split; [lia|].
  unfold PS._get_dominant_level. rewrite Hv, Hp, Hi.
  set (nv := sentences_at isspace very_polite _) in *.
  set (np := sentences_at isspace polite _) in *.
  set (ni := sentences_at isspace informal _) in *.
  destruct (Z.leb_spec 15 total).
  { split; [reflexivity|]. split; [discriminate|lia]. }
  destruct (Z.ltb_spec 0 nv).
  { split; [reflexivity|]. split; [discriminate|lia]. }
  destruct (Z.ltb_spec ni np).
  { split; [lia|]. split; [discriminate|lia]. }
  destruct (Z.ltb_spec 0 ni).
  { split; [lia|]. split; [intros _; lia|reflexivity]. }
  split; [lia|]. split; [discriminate|lia].
Qed.
